(** * Topics list component (debat_AI frontend): a shallow embedding

    The component [TopicsListComponent] (topics-list.component.ts) is
    embedded as state-passing code over

    - the component's own fields,
    - the browser's [localStorage], a finite map from strings to strings,
    - the chronological trace of what the component does to the outside:
      the [setItem] calls and the navigations asked of the router.

    Conventions of the embedding:

    - a JavaScript string is the list of its UTF-16 code units ([list N]);
      [lit] turns an ASCII literal into such a list;
    - a debate id is a [Z], a number read from JSON is the decimal
      [mant / 10^scale], taken as it is written, and the text of an
      integer is that of its digits.  The doubles of the platform agree
      with this for the integers up to [2^53] in magnitude ([exact_int]);
      beyond, the platform rounds what it reads to 53 significant bits
      (to Infinity above the largest double, written back as [null]) and
      writes the exponent notation from [1e21] on, which the embedding
      does not follow: what is proved of the value of a counter or of the
      digits of a text is stated for [exact_int] numbers.  The addition
      of integers, the one operation that the component does on numbers,
      rounds as the doubles do ([round_int]);
    - [JSON.parse] and [JSON.stringify] are functions on texts, the former
      a recursive-descent parser of the whole JSON grammar;
    - the component is a class of an ES module, hence strict code;
    - an exception is an outcome [Throw]; the state reached when it is
      raised is kept, as it is in the browser;
    - the asynchronous delivery of [getDebates()] is the call of the
      subscriber, [ngOnInit], on the delivered list. *)

From Stdlib Require Import ZArith NArith List Ascii String Decimal DecimalFacts DecimalN Lia.
From stdpp Require Import base option list gmap.

Local Open Scope N_scope.

(** ** Strings as lists of code units *)

Abbreviation str := (list N).

Definition lit (s : string) : str := map N_of_ascii (list_ascii_of_string s).

(** [a < b] on strings: lexicographic on code units, a proper prefix is
    smaller. *)
Fixpoint str_ltb (a b : str) : bool :=
  match a, b with
  | _, [] => false
  | [], _ :: _ => true
  | x :: a', y :: b' =>
      if x <? y then true else if y <? x then false else str_ltb a' b'
  end.

(** [Array.prototype.sort()] without comparator on an array of strings:
    ascending in [str_ltb], stable. *)
Fixpoint sort_insert (x : str) (l : list str) : list str :=
  match l with
  | [] => [x]
  | y :: l' => if str_ltb y x then y :: sort_insert x l' else x :: y :: l'
  end.

Definition array_sort (l : list str) : list str := foldr sort_insert [] l.

(** [Array.prototype.join(sep)] on an array of strings. *)
Fixpoint array_join (sep : str) (l : list str) : str :=
  match l with
  | [] => []
  | [x] => x
  | x :: l' => x ++ sep ++ array_join sep l'
  end.

(** White space and line terminators, the code units [String.prototype.trim]
    strips. *)
Definition is_white_space (c : N) : bool :=
  (9 <=? c) && (c <=? 13) || (c =? 32) || (c =? 160) || (c =? 5760)
  || (8192 <=? c) && (c <=? 8202) || (c =? 8232) || (c =? 8233)
  || (c =? 8239) || (c =? 8287) || (c =? 12288) || (c =? 65279).

Fixpoint trim_start (s : str) : str :=
  match s with
  | c :: s' => if is_white_space c then trim_start s' else s
  | [] => []
  end.

Definition trim_end (s : str) : str := rev (trim_start (rev s)).

Definition trim (s : str) : str := trim_end (trim_start s).

(** Truthiness of a string: non-empty. *)
Definition str_truthy (s : str) : bool :=
  match s with [] => false | _ :: _ => true end.

(** ** Decimal digits *)

Fixpoint uint_chars (u : Decimal.uint) : str :=
  match u with
  | Nil => []
  | D0 u => 48 :: uint_chars u
  | D1 u => 49 :: uint_chars u
  | D2 u => 50 :: uint_chars u
  | D3 u => 51 :: uint_chars u
  | D4 u => 52 :: uint_chars u
  | D5 u => 53 :: uint_chars u
  | D6 u => 54 :: uint_chars u
  | D7 u => 55 :: uint_chars u
  | D8 u => 56 :: uint_chars u
  | D9 u => 57 :: uint_chars u
  end.

Definition N_to_str (n : N) : str := uint_chars (N.to_uint n).

(** The longest prefix of decimal digits of a text, and what follows it. *)
Fixpoint read_uint (s : str) : Decimal.uint * str :=
  match s with
  | [] => (Nil, [])
  | c :: r =>
      let cons_digit (d : Decimal.uint -> Decimal.uint) :=
        let '(u, rest) := read_uint r in (d u, rest) in
      if c =? 48 then cons_digit D0
      else if c =? 49 then cons_digit D1
      else if c =? 50 then cons_digit D2
      else if c =? 51 then cons_digit D3
      else if c =? 52 then cons_digit D4
      else if c =? 53 then cons_digit D5
      else if c =? 54 then cons_digit D6
      else if c =? 55 then cons_digit D7
      else if c =? 56 then cons_digit D8
      else if c =? 57 then cons_digit D9
      else (Nil, s)
  end.

(** [ToString] of an integral number: decimal digits, [-] in front of a
    negative one.  (This is the text that the platform gives below [1e21]
    in magnitude; from there on it gives the exponent notation.) *)
Definition Z_to_str (z : Z) : str :=
  match z with
  | Zneg p => 45 :: N_to_str (Npos p)
  | _ => N_to_str (Z.to_N z)
  end.

(** ** JavaScript values

    The values that can come out of [JSON.parse], together with
    [undefined] and [NaN].  An object is the list of its own properties in
    enumeration order; an array carries its elements (a hole reads as
    [undefined]) and the named properties that were put on it. *)

#[warnings="-register-all"]
Inductive value : Type :=
  | VUndefined
  | VNull
  | VBool (b : bool)
  | VNaN
  | VNum (mant : Z) (scale : nat)
  | VStr (s : str)
  | VArr (elems : list value) (extra : list (str * value))
  | VObj (props : list (str * value)).

Inductive Error : Type := SyntaxError | TypeError.

Inductive Outcome (A : Type) : Type :=
  | Return (a : A)
  | Throw (e : Error).
Arguments Return {A} a.
Arguments Throw {A} e.

Definition obind {A B} (m : Outcome A) (k : A -> Outcome B) : Outcome B :=
  match m with
  | Return a => k a
  | Throw e => Throw e
  end.

Notation "'try' x ':=' m 'in' k" := (obind m (fun x => k))
  (at level 10, x name, m at level 100, k at level 200).

(** *** Objects: own properties in enumeration order *)

Definition str_eqb (a b : str) : bool := bool_decide (a = b).

(** A property key is an array index when it is the canonical decimal
    form of an integer below [2^32 - 1]. *)
Definition array_index (k : str) : option N :=
  match read_uint k with
  | (Nil, _) => None
  | (u, []) =>
      let n := N.of_uint u in
      if str_eqb (N_to_str n) k && (n <? 4294967295) then Some n else None
  | (_, _ :: _) => None
  end.

Fixpoint obj_get (k : str) (o : list (str * value)) : option value :=
  match o with
  | [] => None
  | (k', v) :: o' => if str_eqb k' k then Some v else obj_get k o'
  end.

Fixpoint obj_replace (k : str) (v : value) (o : list (str * value))
  : list (str * value) :=
  match o with
  | [] => []
  | (k', v') :: o' =>
      if str_eqb k' k then (k', v) :: o' else (k', v') :: obj_replace k v o'
  end.

(** A new index key goes among the index keys, in ascending order. *)
Fixpoint obj_insert_index (i : N) (k : str) (v : value) (o : list (str * value))
  : list (str * value) :=
  match o with
  | [] => [(k, v)]
  | (k', v') :: o' =>
      match array_index k' with
      | Some j => if j <? i then (k', v') :: obj_insert_index i k v o'
                  else (k, v) :: o
      | None => (k, v) :: o
      end
  end.

(** [o[k] = v] on an ordinary object: an existing property keeps its
    place; a new index key is placed among the index keys; any other new
    key comes last. *)
Definition obj_set (k : str) (v : value) (o : list (str * value))
  : list (str * value) :=
  match obj_get k o with
  | Some _ => obj_replace k v o
  | None =>
      match array_index k with
      | Some i => obj_insert_index i k v o
      | None => o ++ [(k, v)]
      end
  end.

(** *** Numbers as text *)

(** Trailing zeros of the fraction carry no information. *)
Fixpoint strip_zeros (m : Z) (k : nat) : Z * nat :=
  match k with
  | O => (m, O)
  | S k' => if (m mod 10 =? 0)%Z then strip_zeros (m / 10)%Z k' else (m, k)
  end.

(** [ToString] of the number [m / 10^k]: an integer prints as its decimal
    digits, any other number in positional notation, with every digit of
    [m] (the platform prints the shortest digits that give the double
    back, and changes to the exponent notation from [1e21] on and below
    [1e-6]; for an integer up to [2^53] in magnitude the two texts are the
    same). *)
Definition number_to_str (m : Z) (k : nat) : str :=
  match strip_zeros m k with
  | (m', O) => Z_to_str m'
  | (m', k') =>
      let a := Z.abs_N m' in
      let p := 10 ^ N.of_nat k' in
      let frac := N_to_str (a mod p) in
      (if (m' <? 0)%Z then [45] else [])
        ++ N_to_str (a / p) ++ [46]
        ++ repeat 48 (k' - length frac)%nat ++ frac
  end.

(** *** [ToString] and [ToPrimitive]

    An object made by [JSON.parse] has the methods of [Object.prototype],
    unless an own property of the same name hides them; an own property is
    never callable.  So the conversion of an object to a primitive yields
    ["[object Object]"], and raises a TypeError when the object has an own
    property [toString].  An array converts through [join]. *)
Fixpoint to_string (v : value) : Outcome str :=
  match v with
  | VUndefined => Return (lit "undefined")
  | VNull => Return (lit "null")
  | VBool true => Return (lit "true")
  | VBool false => Return (lit "false")
  | VNaN => Return (lit "NaN")
  | VNum m k => Return (number_to_str m k)
  | VStr s => Return s
  | VArr elems _ =>
      (fix join (l : list value) : Outcome str :=
         match l with
         | [] => Return []
         | x :: l' =>
             try sx := match x with
                       | VUndefined | VNull => Return []
                       | _ => to_string x
                       end in
             match l' with
             | [] => Return sx
             | _ :: _ => try sl := join l' in Return (sx ++ 44 :: sl)
             end
         end) elems
  | VObj props =>
      match obj_get (lit "toString") props with
      | Some _ => Throw TypeError
      | None => Return (lit "[object Object]")
      end
  end.

Definition to_primitive (v : value) : Outcome value :=
  match v with
  | VArr _ _ | VObj _ => try s := to_string v in Return (VStr s)
  | _ => Return v
  end.

Definition truthy (v : value) : bool :=
  match v with
  | VUndefined | VNull | VNaN => false
  | VBool b => b
  | VNum m _ => negb (m =? 0)%Z
  | VStr s => str_truthy s
  | VArr _ _ | VObj _ => true
  end.

(** [a || b] *)
Definition js_or (a b : value) : value := if truthy a then a else b.

(** [ToNumber] of a primitive that is not a string. *)
Definition to_number (v : value) : value :=
  match v with
  | VNull | VBool false => VNum 0 0
  | VBool true => VNum 1 0
  | VNum m k => VNum m k
  | _ => VNaN
  end.

(** The sum of two numbers is the double nearest to the exact sum, and of
    two nearest ones the one with the even significand.  Every integer up
    to [2^53] in magnitude is a double; above, a double is an integer of
    53 significant bits: [q * 2^sh] with [2^52 <= q < 2^53].  (A double
    plus 1 is within the range of the doubles: the addition of the
    component does not overflow.) *)
Definition round_int (z : Z) : Z :=
  let a := Z.abs z in
  if (a <=? 2 ^ 53)%Z then z
  else
    let sh := (Z.log2 a - 52)%Z in
    let q := Z.shiftr a sh in
    let r := (a - Z.shiftl q sh)%Z in
    let half := (2 ^ (sh - 1))%Z in
    let q' := if (half <? r)%Z || ((r =? half)%Z && Z.odd q)
              then (q + 1)%Z else q in
    (Z.sgn z * Z.shiftl q' sh)%Z.

(** [a + n] for a number [n] given as an integer: string concatenation
    when [a] converts to a string, addition of numbers otherwise.  A sum
    of integers, the case of the counters, is rounded as the platform
    rounds it.  A sum that is not an integer is kept as the decimal that
    it is, where the platform rounds again: nothing below is stated of
    the value of such a sum. *)
Definition js_add_int (a : value) (n : Z) : Outcome value :=
  try p := to_primitive a in
  match p with
  | VStr s => Return (VStr (s ++ Z_to_str n))
  | _ =>
      match to_number p with
      | VNum m O => Return (VNum (round_int (m + n)) 0)
      | VNum m k => Return (VNum (m + n * 10 ^ Z.of_nat k)%Z k)
      | _ => Return VNaN
      end
  end.

(** *** Property access with a numeric key: [o[id]] *)

Definition is_index (id : Z) : bool := (0 <=? id)%Z && (id <? 4294967295)%Z.

Definition get_prop (o : value) (id : Z) : Outcome value :=
  match o with
  | VUndefined | VNull => Throw TypeError
  | VBool _ | VNaN | VNum _ _ => Return VUndefined
  | VStr s =>
      if is_index id
      then Return (from_option (fun c => VStr [c]) VUndefined (s !! Z.to_nat id))
      else Return VUndefined
  | VArr elems extra =>
      if is_index id
      then Return (default VUndefined (elems !! Z.to_nat id))
      else Return (default VUndefined (obj_get (Z_to_str id) extra))
  | VObj props => Return (default VUndefined (obj_get (Z_to_str id) props))
  end.

(** [o[id] = x] in strict code (a class body): creating a property on a
    primitive raises a TypeError; writing past the end of an array
    lengthens it with holes. *)
Definition set_prop (o : value) (id : Z) (x : value) : Outcome value :=
  match o with
  | VArr elems extra =>
      if is_index id then
        let i := Z.to_nat id in
        if (i <? length elems)%nat
        then Return (VArr (<[i := x]> elems) extra)
        else Return (VArr (elems ++ repeat VUndefined (i - length elems) ++ [x]) extra)
      else Return (VArr elems (obj_set (Z_to_str id) x extra))
  | VObj props => Return (VObj (obj_set (Z_to_str id) x props))
  | _ => Throw TypeError
  end.

(** ** JSON text *)

(** *** [JSON.stringify] *)

Definition hex_digit (d : N) : N := if d <? 10 then 48 + d else 87 + d.

(** [\uXXXX], four lower-case hexadecimal digits. *)
Definition unicode_escape (c : N) : str :=
  [92; 117; hex_digit (c / 4096 mod 16); hex_digit (c / 256 mod 16);
   hex_digit (c / 16 mod 16); hex_digit (c mod 16)].

Definition is_lead_surrogate (c : N) : bool := (55296 <=? c) && (c <=? 56319).
Definition is_trail_surrogate (c : N) : bool := (56320 <=? c) && (c <=? 57343).

(** One code unit that is not a surrogate, inside a JSON string. *)
Definition quote_unit (c : N) : str :=
  if c =? 8 then [92; 98]
  else if c =? 9 then [92; 116]
  else if c =? 10 then [92; 110]
  else if c =? 12 then [92; 102]
  else if c =? 13 then [92; 114]
  else if c =? 34 then [92; 34]
  else if c =? 92 then [92; 92]
  else if c <? 32 then unicode_escape c
  else [c].

(** A surrogate pair is copied, a lone surrogate is escaped. *)
Fixpoint quote_units (s : str) : str :=
  match s with
  | [] => []
  | c :: r =>
      if is_lead_surrogate c then
        match r with
        | d :: r' =>
            if is_trail_surrogate d then c :: d :: quote_units r'
            else unicode_escape c ++ quote_units r
        | [] => unicode_escape c
        end
      else if is_trail_surrogate c then unicode_escape c ++ quote_units r
      else quote_unit c ++ quote_units r
  end.

Definition quote (s : str) : str := 34 :: quote_units s ++ [34].

Definition is_undefined (v : value) : bool :=
  match v with VUndefined => true | _ => false end.

(** The text of a value; [undefined] and [NaN] inside an array are written
    [null], a property whose value is [undefined] is left out, the named
    properties of an array are not written. *)
Fixpoint serialize (v : value) : str :=
  match v with
  | VUndefined | VNull | VNaN => lit "null"
  | VBool true => lit "true"
  | VBool false => lit "false"
  | VNum m k => number_to_str m k
  | VStr s => quote s
  | VArr elems _ => 91 :: array_join [44] (map serialize elems) ++ [93]
  | VObj props =>
      let members :=
        (fix members (o : list (str * value)) : list str :=
           match o with
           | [] => []
           | (k, x) :: o' =>
               if is_undefined x then members o'
               else (quote k ++ 58 :: serialize x) :: members o'
           end) in
      123 :: array_join [44] (members props) ++ [125]
  end.

(** [JSON.stringify(v)]: [None] stands for the result [undefined]. *)
Definition JSON_stringify (v : value) : option str :=
  if is_undefined v then None else Some (serialize v).

(** *** [JSON.parse] *)

Inductive presult (A : Type) : Type :=
  | POk (a : A) (rest : str)
  | PErr
  | PFuel.
Arguments POk {A} a rest.
Arguments PErr {A}.
Arguments PFuel {A}.

Definition pbind {A B} (m : presult A) (k : A -> str -> presult B) : presult B :=
  match m with
  | POk a rest => k a rest
  | PErr => PErr
  | PFuel => PFuel
  end.

Notation "'parse' x 'rest' r ':=' m 'in' k" := (pbind m (fun x r => k))
  (at level 10, x name, r name, m at level 100, k at level 200).

Definition is_json_ws (c : N) : bool :=
  (c =? 32) || (c =? 9) || (c =? 10) || (c =? 13).

Fixpoint skip_ws (s : str) : str :=
  match s with
  | c :: s' => if is_json_ws c then skip_ws s' else s
  | [] => []
  end.

Definition hex_val (c : N) : option N :=
  if (48 <=? c) && (c <=? 57) then Some (c - 48)
  else if (65 <=? c) && (c <=? 70) then Some (c - 55)
  else if (97 <=? c) && (c <=? 102) then Some (c - 87)
  else None.

(** The character after a backslash, [u] apart. *)
Definition unescape (e : N) : option N :=
  if e =? 34 then Some 34
  else if e =? 92 then Some 92
  else if e =? 47 then Some 47
  else if e =? 98 then Some 8
  else if e =? 102 then Some 12
  else if e =? 110 then Some 10
  else if e =? 114 then Some 13
  else if e =? 116 then Some 9
  else None.

(** The characters of a string, after its opening quote, up to and
    including the closing one. *)
Fixpoint parse_chars (s : str) : presult str :=
  match s with
  | [] => PErr
  | c :: r =>
      if c =? 34 then POk [] r
      else if c =? 92 then
        match r with
        | [] => PErr
        | e :: r1 =>
            if e =? 117 then
              match r1 with
              | h1 :: h2 :: h3 :: h4 :: r2 =>
                  match hex_val h1, hex_val h2, hex_val h3, hex_val h4 with
                  | Some a, Some b, Some c', Some d =>
                      parse t rest r3 := parse_chars r2 in
                      POk ((a * 4096 + b * 256 + c' * 16 + d) :: t) r3
                  | _, _, _, _ => PErr
                  end
              | _ => PErr
              end
            else
              match unescape e with
              | Some u => parse t rest r3 := parse_chars r1 in POk (u :: t) r3
              | None => PErr
              end
        end
      else if c <? 32 then PErr
      else parse t rest r3 := parse_chars r in POk (c :: t) r3
  end.

(** A number: an optional minus sign; the integer part, a single [0] or
    digits that do not start with [0]; an optional fraction, a dot and at
    least one digit; an optional exponent, [e] or [E], an optional sign and
    at least one digit. *)
Definition parse_int_part (s : str) : presult Decimal.uint :=
  match s with
  | [] => PErr
  | c :: r =>
      if c =? 48 then POk (D0 Nil) r
      else match read_uint s with
           | (Nil, _) => PErr
           | (u, r') => POk u r'
           end
  end.

Definition parse_digits (s : str) : presult Decimal.uint :=
  match read_uint s with
  | (Nil, _) => PErr
  | (u, r) => POk u r
  end.

Definition parse_frac_part (s : str) : presult Decimal.uint :=
  match s with
  | [] => POk Nil s
  | c :: r => if c =? 46 then parse_digits r else POk Nil s
  end.

Definition parse_exp_part (s : str) : presult Z :=
  match s with
  | [] => POk 0%Z s
  | c :: r =>
      if (c =? 101) || (c =? 69) then
        let '(neg, r') :=
          match r with
          | [] => (false, r)
          | g :: r1 => if g =? 43 then (false, r1)
                       else if g =? 45 then (true, r1) else (false, r)
          end in
        parse u rest r2 := parse_digits r' in
        POk (if neg then - Z.of_N (N.of_uint u) else Z.of_N (N.of_uint u))%Z r2
      else POk 0%Z s
  end.
(** A JSON number, as the decimal that is written: sign, integer part,
    fraction and exponent.  (The platform keeps the nearest double, or
    Infinity; an integer up to [2^53] in magnitude is read as itself.) *)
Definition parse_number (s : str) : presult value :=
  let '(neg, s1) :=
    match s with
    | [] => (false, s)
    | c :: r => if c =? 45 then (true, r) else (false, s)
    end in
  parse i rest s2 := parse_int_part s1 in
  parse f rest s3 := parse_frac_part s2 in
  parse e rest s4 := parse_exp_part s3 in
  let m := Z.of_N (N.of_uint (Decimal.app i f)) in
  let m := if neg then (- m)%Z else m in
  let x := (e - Z.of_nat (Decimal.nb_digits f))%Z in
  if (0 <=? x)%Z then POk (VNum (m * 10 ^ x)%Z 0) s4
  else POk (VNum m (Z.to_nat (- x))) s4.

Definition expect_word (w : str) (v : value) (s : str) : presult value :=
  if str_eqb (take (length w) s) w then POk v (drop (length w) s) else PErr.

(** A value, after optional white space.  Every recursive call is made on
    a shorter text and a level of nesting takes two units of [fuel], so
    fuel above twice the length of the text is never used up
    ([JSON_parse_fuel] below). *)
Fixpoint parse_value (fuel : nat) (s : str) : presult value :=
  match fuel with
  | O => PFuel
  | S fuel =>
      match skip_ws s with
      | [] => PErr
      | c :: r =>
          if c =? 123 then
            match skip_ws r with
            | [] => PErr
            | c1 :: r1 =>
                if c1 =? 125 then POk (VObj []) r1
                else parse_members fuel [] (c1 :: r1)
            end
          else if c =? 91 then
            match skip_ws r with
            | [] => PErr
            | c1 :: r1 =>
                if c1 =? 93 then POk (VArr [] []) r1
                else parse_elements fuel [] (c1 :: r1)
            end
          else if c =? 34 then
            parse t rest r1 := parse_chars r in POk (VStr t) r1
          else if c =? 116 then expect_word (lit "true") (VBool true) (c :: r)
          else if c =? 102 then expect_word (lit "false") (VBool false) (c :: r)
          else if c =? 110 then expect_word (lit "null") VNull (c :: r)
          else parse_number (c :: r)
      end
  end

(** The members of an object, after the opening brace: [acc] holds the
    properties made so far, a repeated key overwrites. *)
with parse_members (fuel : nat) (acc : list (str * value)) (s : str)
  : presult value :=
  match fuel with
  | O => PFuel
  | S fuel =>
      match skip_ws s with
      | [] => PErr
      | q :: r =>
          if q =? 34 then
            parse k rest r1 := parse_chars r in
            match skip_ws r1 with
            | [] => PErr
            | c :: r2 =>
                if c =? 58 then
                  parse v rest r3 := parse_value fuel r2 in
                  let acc' := obj_set k v acc in
                  match skip_ws r3 with
                  | [] => PErr
                  | d :: r4 =>
                      if d =? 44 then parse_members fuel acc' r4
                      else if d =? 125 then POk (VObj acc') r4
                      else PErr
                  end
                else PErr
            end
          else PErr
      end
  end

(** The elements of an array, after the opening bracket; [acc] holds the
    elements read so far, last first. *)
with parse_elements (fuel : nat) (acc : list value) (s : str)
  : presult value :=
  match fuel with
  | O => PFuel
  | S fuel =>
      parse v rest r1 := parse_value fuel s in
      match skip_ws r1 with
      | [] => PErr
      | d :: r2 =>
          if d =? 44 then parse_elements fuel (v :: acc) r2
          else if d =? 93 then POk (VArr (rev (v :: acc)) []) r2
          else PErr
      end
  end.

Definition parse_fuel (text : str) : nat := S (2 * length text).

(** [JSON.parse(text)]: one value, white space around it, nothing else. *)
Definition JSON_parse (text : str) : Outcome value :=
  match parse_value (parse_fuel text) text with
  | POk v rest =>
      match skip_ws rest with
      | [] => Return v
      | _ :: _ => Throw SyntaxError
      end
  | _ => Throw SyntaxError
  end.

(** ** The component and its environment *)

(** models.ts: [interface Debate { id: number; topic: string }] *)
Record Debate : Type := mkDebate { id : Z; topic : str }.

(** An entry of [this.debates]: [{ ...debate, selectionCount: ... }]. *)
Record EnrichedDebate : Type :=
  mkEnriched { base : Debate; selectionCount : value }.

(** ['grid' | 'list'] *)
Inductive ViewMode : Type := mode_grid | mode_list.

(** The fields of [TopicsListComponent].  [selectedDebate] is read through
    its [id] and [topic] only, and neither is ever assigned: it is kept by
    value. *)
Record Component : Type := mkComponent {
  debates : list EnrichedDebate;
  viewMode : ViewMode;
  selectedDebate : option Debate;
  debaterA : str;
  debaterB : str
}.

(** The component as its field initialisers leave it. *)
Definition new_component : Component :=
  {| debates := []; viewMode := mode_grid; selectedDebate := None;
     debaterA := lit "Alice"; debaterB := lit "Bob" |}.

(** What the component does to the outside. *)
Inductive Segment : Type := SegStr (s : str) | SegNum (n : Z).

Inductive Event : Type :=
  | SetItem (key val : str)
  | Navigate (commands : list Segment).

Record State : Type := mkState {
  this : Component;
  localStorage : gmap str str;
  trace : list Event
}.

(** *** Computations: state passing, with exceptions *)

Definition M (A : Type) : Type := State -> Outcome A * State.

Definition ret {A} (a : A) : M A := fun st => (Return a, st).

Definition bind {A B} (m : M A) (k : A -> M B) : M B :=
  fun st =>
    match m st with
    | (Return a, st') => k a st'
    | (Throw e, st') => (Throw e, st')
    end.

Notation "'let!' x ':=' m 'in' k" := (bind m (fun x => k))
  (at level 10, x name, m at level 100, k at level 200).

Definition lift {A} (o : Outcome A) : M A := fun st => (o, st).

Definition get_this : M Component := fun st => (Return (this st), st).

Definition set_this (c : Component) : M unit :=
  fun st => (Return tt, {| this := c; localStorage := localStorage st;
                           trace := trace st |}).

Definition localStorage_getItem (key : str) : M (option str) :=
  fun st => (Return (localStorage st !! key), st).

Definition localStorage_setItem (key val : str) : M unit :=
  fun st => (Return tt, {| this := this st;
                           localStorage := <[key := val]> (localStorage st);
                           trace := trace st ++ [SetItem key val] |}).

Definition router_navigate (commands : list Segment) : M unit :=
  fun st => (Return tt, {| this := this st; localStorage := localStorage st;
                           trace := trace st ++ [Navigate commands] |}).

(** *** The methods of [TopicsListComponent] *)

Definition getDebateCounts : M value :=
  let! counts := localStorage_getItem (lit "debateCounts") in
  match counts with
  | Some text => if str_truthy text then lift (JSON_parse text) else ret (VObj [])
  | None => ret (VObj [])
  end.

(** [data.map(debate => ({...debate, selectionCount: counts[debate.id] || 0}))] *)
Fixpoint enrich (counts : value) (data : list Debate)
  : Outcome (list EnrichedDebate) :=
  match data with
  | [] => Return []
  | debate :: data' =>
      try c := get_prop counts (id debate) in
      try rest := enrich counts data' in
      Return ({| base := debate; selectionCount := js_or c (VNum 0 0) |} :: rest)
  end.

(** The subscriber that [ngOnInit] registers, run on the list [data] that
    [getDebates()] delivers. *)
Definition ngOnInit (data : list Debate) : M unit :=
  let! counts := getDebateCounts in
  let! enriched := lift (enrich counts data) in
  let! c := get_this in
  set_this {| debates := enriched; viewMode := viewMode c;
              selectedDebate := selectedDebate c;
              debaterA := debaterA c; debaterB := debaterB c |}.

Definition setViewMode (mode : ViewMode) : M unit :=
  let! c := get_this in
  set_this {| debates := debates c; viewMode := mode;
              selectedDebate := selectedDebate c;
              debaterA := debaterA c; debaterB := debaterB c |}.

Definition incrementDebateCount (debateId : Z) : M unit :=
  let! counts := getDebateCounts in
  let! old := lift (get_prop counts debateId) in
  let! new := lift (js_add_int (js_or old (VNum 0 0)) 1) in
  let! counts := lift (set_prop counts debateId new) in
  let! _ := localStorage_setItem (lit "debateCounts")
              (default (lit "undefined") (JSON_stringify counts)) in
  let! c := get_this in
  match list_find (fun d => id (base d) = debateId) (debates c) with
  | Some (i, debate) =>
      let! cur := lift (get_prop counts debateId) in
      set_this {| debates := <[i := {| base := base debate;
                                       selectionCount := cur |}]> (debates c);
                  viewMode := viewMode c;
                  selectedDebate := selectedDebate c;
                  debaterA := debaterA c; debaterB := debaterB c |}
  | None => ret tt
  end.

Definition openSetup (debate : Debate) : M unit :=
  let! c := get_this in
  let! _ := set_this {| debates := debates c; viewMode := viewMode c;
                        selectedDebate := Some debate;
                        debaterA := debaterA c; debaterB := debaterB c |} in
  incrementDebateCount (id debate).

Definition closeSetup : M unit :=
  let! c := get_this in
  set_this {| debates := debates c; viewMode := viewMode c;
              selectedDebate := None;
              debaterA := debaterA c; debaterB := debaterB c |}.

Definition startDebate : M unit :=
  let! c := get_this in
  match selectedDebate c with
  | None => ret tt
  | Some selected =>
      if negb (str_truthy (trim (debaterA c)))
         || negb (str_truthy (trim (debaterB c)))
      then ret tt
      else
        let! _ := localStorage_setItem (lit "debaterA") (debaterA c) in
        let! _ := localStorage_setItem (lit "debaterB") (debaterB c) in
        let! _ := localStorage_setItem (lit "username") (debaterA c) in
        let! _ := localStorage_setItem (lit "debateTopic") (topic selected) in
        let participants :=
          array_join (lit "_") (array_sort [debaterA c; debaterB c]) in
        let sessionId := Z_to_str (id selected) ++ lit "_" ++ participants in
        let! _ := localStorage_setItem (lit "currentSessionId") sessionId in
        router_navigate [SegStr (lit "/debates"); SegNum (id selected)]
  end.

(** ** Vocabulary of the statements *)

(** The session identifier that [startDebate] computes for the selected
    debate and the two names. *)
Definition session_id (selected : Debate) (a b : str) : str :=
  Z_to_str (id selected) ++ lit "_" ++ array_join (lit "_") (array_sort [a; b]).

(** A name is blank when nothing is left of it after [trim]. *)
Definition blank (s : str) : Prop := trim s = [].

(** The component with another selection. *)
Definition select (sel : option Debate) (c : Component) : Component :=
  {| debates := debates c; viewMode := viewMode c; selectedDebate := sel;
     debaterA := debaterA c; debaterB := debaterB c |}.

(** A state whose component has the given selection and names. *)
Definition setup_state (c : Component) (sel : Debate) (a b : str)
  (ls : gmap str str) (tr : list Event) : State :=
  {| this := {| debates := debates c; viewMode := viewMode c;
                selectedDebate := Some sel; debaterA := a; debaterB := b |};
     localStorage := ls; trace := tr |}.

(** Making the properties of [o] one after the other, as [JSON.parse]
    does with the members of an object. *)
Definition obj_build (o acc : list (str * value)) : list (str * value) :=
  fold_left (fun acc kv => obj_set kv.1 kv.2 acc) o acc.

(** What may follow a number in a text: not a digit, not a dot, not an
    exponent mark. *)
Definition ends_number (s : str) : Prop :=
  match s with
  | [] => True
  | c :: _ => (c < 48 \/ 57 < c) /\ c <> 46 /\ c <> 101 /\ c <> 69
  end.

(** A counter map: every property holds an integer. *)
Definition counter_map (o : list (str * value)) : Prop :=
  Forall (fun kv => exists n : Z, kv.2 = VNum n 0) o.

(** The counter that a counter map holds for a debate, 0 when it holds
    none. *)
Definition stored_count (o : list (str * value)) (debateId : Z) : Z :=
  match obj_get (Z_to_str debateId) o with
  | Some (VNum n O) => n
  | _ => 0%Z
  end.

(** The text of one member of an object. *)
Definition member_text (kv : str * value) : str :=
  quote kv.1 ++ 58 :: serialize kv.2.

(** An integer that the platform holds exactly, reads exactly from its
    digits and writes as its digits. *)
Definition exact_int (z : Z) : Prop := (- 2 ^ 53 <= z <= 2 ^ 53)%Z.

(** A counter map of such integers. *)
Definition exact_counter_map (o : list (str * value)) : Prop :=
  Forall (fun kv => exists n : Z, kv.2 = VNum n 0 /\ exact_int n) o.

(** [(counts[debateId] || 0) + 1] on a counter map. *)
Definition next_count (o : list (str * value)) (debateId : Z) : value :=
  VNum (round_int (stored_count o debateId + 1)) 0.

(** [counts[debateId]] on the stored counters, as the component reads
    it. *)
Definition read_counter (debateId : Z) : M value :=
  let! counts := getDebateCounts in
  lift (get_prop counts debateId).

(** The component with another list of debates. *)
Definition with_debates (ds : list EnrichedDebate) (c : Component) : Component :=
  {| debates := ds; viewMode := viewMode c; selectedDebate := selectedDebate c;
     debaterA := debaterA c; debaterB := debaterB c |}.

(** The component after [incrementDebateCount] has copied the new count
    [cur] into the first entry of the list that has the id, if there is
    one. *)
Definition reflect_count (debateId : Z) (cur : value) (c : Component)
  : Component :=
  match list_find (fun d => id (base d) = debateId) (debates c) with
  | Some (i, debate) =>
      with_debates (<[i := {| base := base debate; selectionCount := cur |}]>
                      (debates c)) c
  | None => c
  end.

(** A parser result that did not run out of fuel and, when it is a
    value, left fewer than [n] characters. *)
Definition within {A} (n : nat) (p : presult A) : Prop :=
  match p with
  | POk _ r => (length r < n)%nat
  | PErr => True
  | PFuel => False
  end.

(** ** Sequences of calls

    What the template and the framework do to the component: one call
    after the other, until one raises. *)
Inductive Call : Type :=
  | CallNgOnInit (data : list Debate)
  | CallSetViewMode (mode : ViewMode)
  | CallOpenSetup (debate : Debate)
  | CallCloseSetup
  | CallStartDebate.

Definition call (c : Call) : M unit :=
  match c with
  | CallNgOnInit data => ngOnInit data
  | CallSetViewMode mode => setViewMode mode
  | CallOpenSetup debate => openSetup debate
  | CallCloseSetup => closeSetup
  | CallStartDebate => startDebate
  end.

Fixpoint calls (l : list Call) : M unit :=
  match l with
  | [] => ret tt
  | c :: l' => let! _ := call c in calls l'
  end.

(** How many of the calls open the setup of the debate [debateId]. *)
Fixpoint opens (debateId : Z) (l : list Call) : Z :=
  match l with
  | [] => 0
  | CallOpenSetup d :: l' =>
      ((if decide (id d = debateId) then 1 else 0) + opens debateId l')%Z
  | _ :: l' => opens debateId l'
  end.

(** The selection that the calls leave, by the last [openSetup] or
    [closeSetup] among them. *)
Fixpoint selection_after (l : list Call) (sel : option Debate) : option Debate :=
  match l with
  | [] => sel
  | CallOpenSetup d :: l' => selection_after l' (Some d)
  | CallCloseSetup :: l' => selection_after l' None
  | _ :: l' => selection_after l' sel
  end.

(** The ids of the debates that the component lists. *)
Definition listed_ids (c : Component) : list Z :=
  map (fun e => id (base e)) (debates c).

(** The counts that the list shows are the counts of the counter map. *)
Definition shows_counts (o : list (str * value)) (c : Component) : Prop :=
  Forall (fun e => selectionCount e = VNum (stored_count o (id (base e))) 0)
         (debates c).

(** A fetch delivers debates with distinct ids. *)
Definition distinct_fetch (c : Call) : Prop :=
  match c with
  | CallNgOnInit data => NoDup (map id data)
  | _ => True
  end.

(** The storage keys that [startDebate] writes. *)
Definition session_keys : list str :=
  [lit "debaterA"; lit "debaterB"; lit "username"; lit "debateTopic";
   lit "currentSessionId"].

(** The effects of a successful [startDebate]. *)
Definition start_events (sel : Debate) (a b : str) : list Event :=
  [SetItem (lit "debaterA") a; SetItem (lit "debaterB") b;
   SetItem (lit "username") a; SetItem (lit "debateTopic") (topic sel);
   SetItem (lit "currentSessionId") (session_id sel a b);
   Navigate [SegStr (lit "/debates"); SegNum (id sel)]].

(** * Properties *)

(** ** The model at work *)

Example JSON_parse_object :
  JSON_parse (lit " {" ++ quote (lit "10") ++ lit ": 7, " ++ quote (lit "b")
                ++ lit ":[1.50, -2e1, true, null], " ++ quote (lit "3")
                ++ lit ":2 ,  " ++ quote (lit "10") ++ lit ":8} ")
  = Return (VObj [(lit "3", VNum 2 0); (lit "10", VNum 8 0);
                  (lit "b", VArr [VNum 150 2; VNum (-20) 0; VBool true; VNull] [])]).
Proof. reflexivity. Qed.

Example JSON_parse_rejects :
  JSON_parse (lit "") = Throw SyntaxError
  /\ JSON_parse (lit "{") = Throw SyntaxError
  /\ JSON_parse (lit "[1,]") = Throw SyntaxError
  /\ JSON_parse (lit "01") = Throw SyntaxError
  /\ JSON_parse (lit "1.") = Throw SyntaxError
  /\ JSON_parse (lit "{3:1}") = Throw SyntaxError
  /\ JSON_parse (lit "undefined") = Throw SyntaxError
  /\ JSON_parse (lit "[[[[[[") = Throw SyntaxError.
Proof. repeat split. Qed.

Example JSON_stringify_object :
  JSON_stringify
    (VObj (obj_set (lit "1") (VNum 4 0)
             (obj_set (lit "b") (VStr [10; 34; 55357])
                (obj_set (lit "2") (VNum (-125) 2)
                   (obj_set (lit "10") VNull [])))))
  = Some (lit "{" ++ quote (lit "1") ++ lit ":4," ++ quote (lit "2")
            ++ lit ":-1.25," ++ quote (lit "10") ++ lit ":null,"
            ++ quote (lit "b") ++ lit ":" ++ [34] ++ lit "\n\" ++ [34]
            ++ lit "\ud83d" ++ [34] ++ lit "}").
Proof. reflexivity. Qed.

(** The example of the specification: the counters start empty; opening
    the setup of debate 3 stores [{"3":1}], opening it again [{"3":2}], and
    closing the setup leaves that text. *)
Example counters_of_debate_3 :
  let d := mkDebate 3 (lit "X") in
  let st0 := {| this := new_component; localStorage := ∅; trace := [] |} in
  let st1 := snd (openSetup d st0) in
  let st2 := snd (openSetup d st1) in
  let st3 := snd (closeSetup st2) in
  localStorage st1 !! lit "debateCounts"
  = Some (lit "{" ++ quote (lit "3") ++ lit ":1}")
  /\ localStorage st2 !! lit "debateCounts"
     = Some (lit "{" ++ quote (lit "3") ++ lit ":2}")
  /\ localStorage st3 !! lit "debateCounts"
     = Some (lit "{" ++ quote (lit "3") ++ lit ":2}")
  /\ selectedDebate (this st2) = Some d
  /\ selectedDebate (this st3) = None.
Proof. repeat split. Qed.

(** The count of a listed debate is copied into the list. *)
Example openSetup_listed_debate :
  let d := mkDebate 3 (lit "X") in
  let st0 := {| this := new_component;
                localStorage := {[ lit "debateCounts"
                                   := lit "{" ++ quote (lit "3") ++ lit ":4}" ]};
                trace := [] |} in
  let st1 := snd (ngOnInit [mkDebate 2 (lit "W"); d] st0) in
  debates (this st1)
  = [ {| base := mkDebate 2 (lit "W"); selectionCount := VNum 0 0 |};
      {| base := d; selectionCount := VNum 4 0 |} ]
  /\ debates (this (snd (openSetup d st1)))
     = [ {| base := mkDebate 2 (lit "W"); selectionCount := VNum 0 0 |};
         {| base := d; selectionCount := VNum 5 0 |} ].
Proof. repeat split. Qed.

(** Stored text that is JSON without being a counter map is used as it
    is parsed: [null] has no properties to read, a number cannot take one,
    an array is indexed by the id, a count that is a string is extended. *)
Example stored_json_of_another_shape :
  let d := mkDebate 1 (lit "X") in
  let stored text := {| this := new_component;
                        localStorage := {[ lit "debateCounts" := text ]};
                        trace := [] |} in
  fst (ngOnInit [d] (stored (lit "null"))) = Throw TypeError
  /\ fst (ngOnInit [] (stored (lit "null"))) = Return tt
  /\ fst (openSetup d (stored (lit "null"))) = Throw TypeError
  /\ debates (this (snd (ngOnInit [d] (stored (lit "7")))))
     = [ {| base := d; selectionCount := VNum 0 0 |} ]
  /\ fst (openSetup d (stored (lit "7"))) = Throw TypeError
  /\ localStorage (snd (openSetup d (stored (lit "[5,6]")))) !! lit "debateCounts"
     = Some (lit "[5,7]")
  /\ localStorage (snd (openSetup d (stored (lit "[5]")))) !! lit "debateCounts"
     = Some (lit "[5,1]")
  /\ localStorage
       (snd (openSetup d (stored (lit "{" ++ quote (lit "1") ++ lit ":"
                                    ++ quote (lit "x") ++ lit "}"))))
       !! lit "debateCounts"
     = Some (lit "{" ++ quote (lit "1") ++ lit ":" ++ quote (lit "x1") ++ lit "}").
Proof. repeat split. Qed.

(** ** Strings *)

Lemma str_ltb_irrefl (a : str) : str_ltb a a = false.
Proof.
  induction a as [|x a IH]; simpl; [done|].
  by rewrite N.ltb_irrefl.
Qed.

Lemma str_ltb_asym (a b : str) : str_ltb a b = true -> str_ltb b a = false.
Proof.
  revert b; induction a as [|x a IH]; intros [|y b]; simpl; try done.
  destruct (N.ltb_spec x y) as [Hxy|Hxy].
  - intros _. destruct (N.ltb_spec y x); [lia|done].
  - destruct (N.ltb_spec y x); [done|]. apply IH.
Qed.

Lemma str_ltb_total (a b : str) :
  str_ltb a b = false -> str_ltb b a = false -> a = b.
Proof.
  revert b; induction a as [|x a IH]; intros [|y b]; simpl; try done.
  destruct (N.ltb_spec x y) as [Hxy|Hxy]; [done|].
  destruct (N.ltb_spec y x) as [Hyx|Hyx]; [done|].
  intros Ha Hb. assert (x = y) as -> by lia. f_equal. by apply IH.
Qed.

(** Sorting a pair does not depend on the order of the pair. *)
Lemma array_sort_pair_comm (a b : str) : array_sort [a; b] = array_sort [b; a].
Proof.
  unfold array_sort; simpl.
  destruct (str_ltb b a) eqn:Hba, (str_ltb a b) eqn:Hab; try done.
  - apply str_ltb_asym in Hba. congruence.
  - by rewrite (str_ltb_total a b Hab Hba).
Qed.

Lemma trim_start_nil_iff (s : str) :
  trim_start s = [] <-> Forall (fun c => is_white_space c = true) s.
Proof.
  induction s as [|c s IH]; simpl; [by split; auto|].
  destruct (is_white_space c) eqn:Hc.
  - rewrite IH. split; [by constructor|by inversion 1].
  - split; [done|]. inversion 1; congruence.
Qed.

(** A string is blank for [trim] exactly when it consists of white space. *)
Lemma trim_nil_iff (s : str) :
  trim s = [] <-> Forall (fun c => is_white_space c = true) s.
Proof.
  unfold trim, trim_end. rewrite <- trim_start_nil_iff.
  split.
  - intros H. apply (f_equal (@rev N)) in H. rewrite rev_involutive in H.
    simpl in H. apply trim_start_nil_iff in H.
    apply Forall_rev in H. rewrite rev_involutive in H.
    destruct (trim_start s) as [|c r] eqn:E; [done|].
    assert (Hs : Forall (fun c => is_white_space c = true) (c :: r)) by done.
    rewrite <- E in Hs.
    clear -Hs E. exfalso.
    induction s as [|x s IH]; simpl in *; [done|].
    destruct (is_white_space x) eqn:Hx; [by apply IH|].
    inversion E; subst. inversion Hs; congruence.
  - by intros ->.
Qed.

Lemma str_truthy_false (s : str) : str_truthy s = false <-> s = [].
Proof. by destruct s. Qed.

Lemma not_blank_truthy (s : str) : ~ blank s -> str_truthy (trim s) = true.
Proof. unfold blank. by destruct (trim s). Qed.

Lemma blank_not_truthy (s : str) : blank s -> str_truthy (trim s) = false.
Proof. unfold blank. by intros ->. Qed.

(** ** The view mode *)

(** C8: [setViewMode(m1)] followed by [setViewMode(m2)] leaves the state
    that [setViewMode(m2)] alone leaves; in particular ['list'] then
    ['grid'] is ['grid'] alone, calling it twice with the same mode is
    calling it once, and the mode of the last call is the view mode. *)
Theorem setViewMode_last_call_wins (m1 m2 : ViewMode) (st : State) :
  (let! _ := setViewMode m1 in setViewMode m2) st = setViewMode m2 st
  /\ (let! _ := setViewMode mode_list in setViewMode mode_grid) st
     = setViewMode mode_grid st
  /\ (let! _ := setViewMode m2 in setViewMode m2) st = setViewMode m2 st
  /\ viewMode (this (snd (setViewMode m2 st))) = m2.
Proof. done. Qed.

(** ** The setup dialog *)

(** C7: [closeSetup()] clears the selection and nothing else: the other
    fields of the component, every key of local storage (so the
    ['debateCounts'] map too) and the trace of effects are as before. *)
Theorem closeSetup_only_clears_selection (st : State) :
  closeSetup st
  = (Return tt, {| this := select None (this st);
                   localStorage := localStorage st;
                   trace := trace st |})
  /\ selectedDebate (this (snd (closeSetup st))) = None
  /\ localStorage (snd (closeSetup st)) !! lit "debateCounts"
     = localStorage st !! lit "debateCounts".
Proof. done. Qed.

(** ** Starting a debate *)

(** C4: without a selected debate, or with a blank [debaterA] or
    [debaterB], [startDebate()] returns and the state is the one it
    started from: the component is unchanged, nothing is written to local
    storage and nothing is added to the trace (no navigation). *)
Theorem startDebate_guard (st : State) :
  selectedDebate (this st) = None
  \/ blank (debaterA (this st)) \/ blank (debaterB (this st)) ->
  startDebate st = (Return tt, st).
Proof.
  intros H. unfold startDebate, bind, get_this.
  destruct (selectedDebate (this st)) as [sel|]; [|done].
  destruct H as [H|[H|H]]; [done| |].
  - by rewrite (blank_not_truthy _ H).
  - rewrite (blank_not_truthy _ H). by rewrite orb_true_r.
Qed.

Lemma startDebate_guard_witness :
  let st := setup_state new_component (mkDebate 5 (lit "Cats"))
              (lit "  ") (lit "Bob") ∅ [] in
  blank (debaterA (this st)) /\ startDebate st = (Return tt, st).
Proof.
  intros st. split; [reflexivity|].
  apply (startDebate_guard st). right; left. reflexivity.
Defined.

(** What a successful [startDebate()] does, step by step. *)
Lemma startDebate_run (st : State) (sel : Debate) :
  selectedDebate (this st) = Some sel ->
  ~ blank (debaterA (this st)) -> ~ blank (debaterB (this st)) ->
  let a := debaterA (this st) in
  let b := debaterB (this st) in
  startDebate st
  = (Return tt,
     {| this := this st;
        localStorage :=
          <[lit "currentSessionId" := session_id sel a b]>
            (<[lit "debateTopic" := topic sel]>
               (<[lit "username" := a]>
                  (<[lit "debaterB" := b]>
                     (<[lit "debaterA" := a]> (localStorage st)))));
        trace :=
          trace st
            ++ [SetItem (lit "debaterA") a; SetItem (lit "debaterB") b;
                SetItem (lit "username") a;
                SetItem (lit "debateTopic") (topic sel);
                SetItem (lit "currentSessionId") (session_id sel a b);
                Navigate [SegStr (lit "/debates"); SegNum (id sel)]] |}).
Proof.
  intros Hsel Ha Hb a b. unfold startDebate, bind, get_this.
  rewrite Hsel, (not_blank_truthy _ Ha), (not_blank_truthy _ Hb). simpl.
  unfold localStorage_setItem, router_navigate, session_id. simpl.
  by rewrite <- !app_assoc.
Qed.

Lemma storage_keys_distinct :
  lit "debaterA" <> lit "debaterB" /\ lit "debaterA" <> lit "username"
  /\ lit "debaterA" <> lit "debateTopic"
  /\ lit "debaterA" <> lit "currentSessionId"
  /\ lit "debaterB" <> lit "username" /\ lit "debaterB" <> lit "debateTopic"
  /\ lit "debaterB" <> lit "currentSessionId"
  /\ lit "username" <> lit "debateTopic"
  /\ lit "username" <> lit "currentSessionId"
  /\ lit "debateTopic" <> lit "currentSessionId".
Proof. repeat split; discriminate. Qed.

(** C6: a successful [startDebate()] (a debate selected, both names not
    blank) writes the keys ['debaterA'], ['debaterB'], ['username'],
    ['debateTopic'] and ['currentSessionId'], these and no other, with
    ['username'] the value of [debaterA] and ['debateTopic'] the topic of
    the selected debate, and then asks the router for
    [['/debates', id]]; the component itself is unchanged. *)
Theorem startDebate_writes_and_navigates (st : State) (sel : Debate) :
  selectedDebate (this st) = Some sel ->
  ~ blank (debaterA (this st)) -> ~ blank (debaterB (this st)) ->
  let a := debaterA (this st) in
  let b := debaterB (this st) in
  let st' := snd (startDebate st) in
  fst (startDebate st) = Return tt
  /\ this st' = this st
  /\ trace st'
     = trace st
         ++ [SetItem (lit "debaterA") a; SetItem (lit "debaterB") b;
             SetItem (lit "username") a;
             SetItem (lit "debateTopic") (topic sel);
             SetItem (lit "currentSessionId") (session_id sel a b);
             Navigate [SegStr (lit "/debates"); SegNum (id sel)]]
  /\ localStorage st'
     = <[lit "currentSessionId" := session_id sel a b]>
         (<[lit "debateTopic" := topic sel]>
            (<[lit "username" := a]>
               (<[lit "debaterB" := b]>
                  (<[lit "debaterA" := a]> (localStorage st))))).
Proof.
  intros Hsel Ha Hb a b st'. subst st'.
  by rewrite (startDebate_run st sel Hsel Ha Hb).
Qed.

Lemma startDebate_writes_and_navigates_witness :
  let sel := mkDebate 5 (lit "Cats") in
  let st := setup_state new_component sel (lit "Alice") (lit "Bob") ∅ [] in
  trace (snd (startDebate st))
  = [SetItem (lit "debaterA") (lit "Alice"); SetItem (lit "debaterB") (lit "Bob");
     SetItem (lit "username") (lit "Alice");
     SetItem (lit "debateTopic") (lit "Cats");
     SetItem (lit "currentSessionId") (lit "5_Alice_Bob");
     Navigate [SegStr (lit "/debates"); SegNum 5]].
Proof.
  intros sel st.
  assert (Hsel : selectedDebate (this st) = Some sel) by reflexivity.
  assert (Ha : ~ blank (debaterA (this st))) by (vm_compute; discriminate).
  assert (Hb : ~ blank (debaterB (this st))) by (vm_compute; discriminate).
  exact (proj1 (proj2 (proj2 (startDebate_writes_and_navigates st sel Hsel Ha Hb)))).
Defined.

(** C9: the names are tested in their trimmed form and stored as they
    are: after a successful [startDebate()], ['debaterA'], ['debaterB']
    and ['username'] hold the field values themselves, surrounding white
    space included, and ['currentSessionId'] is built from these same
    values. *)
Theorem startDebate_stores_raw_names (st : State) (sel : Debate) :
  selectedDebate (this st) = Some sel ->
  ~ blank (debaterA (this st)) -> ~ blank (debaterB (this st)) ->
  let a := debaterA (this st) in
  let b := debaterB (this st) in
  let ls := localStorage (snd (startDebate st)) in
  ls !! lit "debaterA" = Some a
  /\ ls !! lit "debaterB" = Some b
  /\ ls !! lit "username" = Some a
  /\ ls !! lit "currentSessionId"
     = Some (Z_to_str (id sel) ++ lit "_"
               ++ array_join (lit "_") (array_sort [a; b])).
Proof.
  intros Hsel Ha Hb a b ls. subst ls.
  rewrite (startDebate_run st sel Hsel Ha Hb). cbn [snd localStorage].
  destruct storage_keys_distinct
    as (H1 & H2 & H3 & H4 & H5 & H6 & H7 & H8 & H9 & H10).
  repeat split.
  - rewrite !lookup_insert_ne by done. by rewrite lookup_insert_eq.
  - rewrite !lookup_insert_ne by done. by rewrite lookup_insert_eq.
  - rewrite !lookup_insert_ne by done. by rewrite lookup_insert_eq.
  - by rewrite lookup_insert_eq.
Qed.

Lemma startDebate_stores_raw_names_witness :
  let sel := mkDebate 5 (lit "Cats") in
  let st := setup_state new_component sel (lit " Alice ") (lit "Bob") ∅ [] in
  let ls := localStorage (snd (startDebate st)) in
  trim (lit " Alice ") = lit "Alice"
  /\ ls !! lit "debaterA" = Some (lit " Alice ")
  /\ ls !! lit "username" = Some (lit " Alice ")
  /\ ls !! lit "currentSessionId" = Some (lit "5_ Alice _Bob").
Proof.
  intros sel st ls.
  assert (Hsel : selectedDebate (this st) = Some sel) by reflexivity.
  assert (Ha : ~ blank (debaterA (this st))) by (vm_compute; discriminate).
  assert (Hb : ~ blank (debaterB (this st))) by (vm_compute; discriminate).
  destruct (startDebate_stores_raw_names st sel Hsel Ha Hb) as (H1 & H2 & H3 & H4).
  split; [reflexivity|]. split; [exact H1|]. split; [exact H3|exact H4].
Defined.

(** C3: the session identifier does not depend on which of the two names
    is [debaterA]: with the names exchanged, [startDebate()] stores the
    same ['currentSessionId']; for the debate 5, the names Alice and Bob
    give ['5_Alice_Bob'] in either order. *)
Theorem startDebate_session_id_symmetric
  (c : Component) (sel : Debate) (a b : str) (ls : gmap str str)
  (tr : list Event) :
  ~ blank a -> ~ blank b ->
  let stored x y :=
    localStorage (snd (startDebate (setup_state c sel x y ls tr)))
      !! lit "currentSessionId" in
  stored a b = stored b a
  /\ (id sel = 5%Z ->
      stored (lit "Alice") (lit "Bob") = Some (lit "5_Alice_Bob")
      /\ stored (lit "Bob") (lit "Alice") = Some (lit "5_Alice_Bob")).
Proof.
  intros Ha Hb stored.
  assert (Hrun : forall x y, ~ blank x -> ~ blank y ->
            stored x y = Some (session_id sel x y)).
  { intros x y Hx Hy. unfold stored.
    rewrite (startDebate_run (setup_state c sel x y ls tr) sel eq_refl Hx Hy).
    cbn [snd localStorage]. by rewrite lookup_insert_eq. }
  split.
  - rewrite !Hrun by done. unfold session_id.
    by rewrite (array_sort_pair_comm a b).
  - intros Hid.
    rewrite !Hrun by (vm_compute; discriminate).
    unfold session_id. rewrite Hid. done.
Qed.

Lemma startDebate_session_id_symmetric_witness :
  let sel := mkDebate 7 (lit "Cats") in
  let stored x y :=
    localStorage (snd (startDebate (setup_state new_component sel x y ∅ [])))
      !! lit "currentSessionId" in
  stored (lit "Zoe") (lit "Adam") = stored (lit "Adam") (lit "Zoe").
Proof.
  intros sel stored.
  assert (Ha : ~ blank (lit "Zoe")) by (vm_compute; discriminate).
  assert (Hb : ~ blank (lit "Adam")) by (vm_compute; discriminate).
  exact (proj1 (startDebate_session_id_symmetric new_component sel
                  (lit "Zoe") (lit "Adam") ∅ [] Ha Hb)).
Defined.

(** ** Objects *)

Lemma str_eqb_eq (a b : str) : str_eqb a b = true <-> a = b.
Proof. unfold str_eqb. apply bool_decide_eq_true. Qed.

Lemma str_eqb_refl (a : str) : str_eqb a a = true.
Proof. by apply str_eqb_eq. Qed.

Lemma str_eqb_neq (a b : str) : a <> b -> str_eqb a b = false.
Proof. unfold str_eqb. apply bool_decide_eq_false_2. Qed.

Lemma obj_get_None (k : str) (o : list (str * value)) :
  obj_get k o = None <-> k ∉ o.*1.
Proof.
  induction o as [|[k' v] o IH]; simpl.
  - split; [intros _; apply not_elem_of_nil|done].
  - rewrite not_elem_of_cons. destruct (decide (k' = k)) as [->|Hne].
    + rewrite str_eqb_refl. split; [done|]. by intros [? _].
    + rewrite (str_eqb_neq _ _ Hne), IH. split; [done|]. by intros [_ ?].
Qed.

Lemma obj_replace_keys (k : str) (v : value) (o : list (str * value)) :
  (obj_replace k v o).*1 = o.*1.
Proof.
  induction o as [|[k' v'] o IH]; [done|].
  cbn [obj_replace]. destruct (str_eqb k' k); rewrite !fmap_cons; [done|].
  by rewrite IH.
Qed.

Lemma obj_get_replace (k k' : str) (v : value) (o : list (str * value)) :
  obj_get k' (obj_replace k v o)
  = if decide (k = k') then (fun _ => v) <$> obj_get k' o else obj_get k' o.
Proof.
  induction o as [|[k1 v1] o IH]; simpl; [by destruct (decide _)|].
  destruct (decide (k1 = k)) as [->|Hne].
  - rewrite str_eqb_refl. simpl. destruct (decide (k = k')) as [->|Hne'].
    + by rewrite str_eqb_refl.
    + by rewrite (str_eqb_neq _ _ Hne').
  - rewrite (str_eqb_neq _ _ Hne). simpl. rewrite IH.
    destruct (decide (k = k')) as [->|Hne'].
    + by rewrite (str_eqb_neq _ _ Hne).
    + done.
Qed.

Lemma obj_insert_index_perm (i : N) (k : str) (v : value) (o : list (str * value)) :
  obj_insert_index i k v o ≡ₚ (k, v) :: o.
Proof.
  induction o as [|[k' v'] o IH]; simpl; [done|].
  destruct (array_index k') as [j|]; [|done].
  destruct (j <? i); [|done].
  rewrite IH. apply Permutation_swap.
Qed.

Lemma obj_get_insert_index (i : N) (k k' : str) (v : value) (o : list (str * value)) :
  obj_get k o = None ->
  obj_get k' (obj_insert_index i k v o)
  = if decide (k = k') then Some v else obj_get k' o.
Proof.
  induction o as [|[k1 v1] o IH]; simpl; intros Hk.
  - destruct (decide (k = k')) as [->|Hne];
      [by rewrite str_eqb_refl|by rewrite (str_eqb_neq _ _ Hne)].
  - destruct (str_eqb k1 k) eqn:E1; [done|].
    assert (Hins : obj_get k' ((k, v) :: (k1, v1) :: o)
                   = if decide (k = k') then Some v
                     else if str_eqb k1 k' then Some v1 else obj_get k' o).
    { simpl. destruct (decide (k = k')) as [->|Hne];
        [by rewrite str_eqb_refl|by rewrite (str_eqb_neq _ _ Hne)]. }
    destruct (array_index k1) as [j|]; [|exact Hins].
    destruct (j <? i); [|exact Hins].
    simpl. rewrite (IH Hk).
    destruct (str_eqb k1 k') eqn:E2; [|done].
    apply str_eqb_eq in E2 as ->.
    destruct (decide (k = k')) as [->|Hne]; [|done].
    by rewrite str_eqb_refl in E1.
Qed.

Lemma obj_get_app (k : str) (o1 o2 : list (str * value)) :
  obj_get k (o1 ++ o2)
  = match obj_get k o1 with Some v => Some v | None => obj_get k o2 end.
Proof.
  induction o1 as [|[k1 v1] o1 IH]; simpl; [done|].
  by destruct (str_eqb k1 k).
Qed.

(** Reading back a property after an assignment. *)
Lemma obj_get_set (k k' : str) (v : value) (o : list (str * value)) :
  obj_get k' (obj_set k v o) = if decide (k = k') then Some v else obj_get k' o.
Proof.
  unfold obj_set. destruct (obj_get k o) as [v0|] eqn:Hk.
  - rewrite obj_get_replace. destruct (decide (k = k')) as [->|]; [|done].
    by rewrite Hk.
  - destruct (array_index k) as [i|].
    + by apply obj_get_insert_index.
    + rewrite obj_get_app. simpl.
      destruct (decide (k = k')) as [->|Hne].
      * by rewrite Hk, str_eqb_refl.
      * rewrite (str_eqb_neq _ _ Hne). by destruct (obj_get k' o).
Qed.

Lemma obj_set_NoDup (k : str) (v : value) (o : list (str * value)) :
  NoDup o.*1 -> NoDup (obj_set k v o).*1.
Proof.
  intros Hnd. unfold obj_set. destruct (obj_get k o) as [v0|] eqn:Hk.
  - by rewrite obj_replace_keys.
  - apply obj_get_None in Hk.
    assert (Hc : NoDup ((k, v) :: o).*1) by (simpl; by constructor).
    destruct (array_index k) as [i|].
    + by rewrite (obj_insert_index_perm i k v o).
    + rewrite fmap_app. simpl. apply NoDup_app. split; [done|].
      split; [|apply NoDup_singleton].
      intros x Hx Hx'. apply list_elem_of_singleton in Hx'. by subst.
Qed.

Lemma obj_set_Forall (P : value -> Prop) (k : str) (v : value)
  (o : list (str * value)) :
  P v -> Forall (fun kv => P kv.2) o -> Forall (fun kv => P kv.2) (obj_set k v o).
Proof.
  intros Hv Ho. unfold obj_set. destruct (obj_get k o) as [v0|].
  - induction Ho as [|[k1 v1] o H1 Ho IH]; simpl; [done|].
    destruct (str_eqb k1 k); constructor; done.
  - destruct (array_index k) as [i|].
    + rewrite (obj_insert_index_perm i k v o). by constructor.
    + apply Forall_app. split; [done|]. by constructor.
Qed.

Lemma obj_get_build (k : str) (o acc : list (str * value)) :
  NoDup o.*1 ->
  obj_get k (obj_build o acc)
  = match obj_get k o with Some v => Some v | None => obj_get k acc end.
Proof.
  revert acc. induction o as [|[k1 v1] o IH]; intros acc Hnd; simpl; [done|].
  inversion Hnd as [|?? Hk1 Hnd']; subst.
  unfold obj_build in *. simpl. rewrite (IH _ Hnd'), obj_get_set.
  destruct (decide (k1 = k)) as [->|Hne].
  - rewrite str_eqb_refl. apply obj_get_None in Hk1. by rewrite Hk1.
  - by rewrite (str_eqb_neq _ _ Hne).
Qed.

Lemma obj_build_NoDup (o acc : list (str * value)) :
  NoDup acc.*1 -> NoDup (obj_build o acc).*1.
Proof.
  revert acc. induction o as [|[k1 v1] o IH]; intros acc Hnd; [done|].
  apply IH. by apply obj_set_NoDup.
Qed.

Lemma obj_build_Forall (P : value -> Prop) (o acc : list (str * value)) :
  Forall (fun kv => P kv.2) o -> Forall (fun kv => P kv.2) acc ->
  Forall (fun kv => P kv.2) (obj_build o acc).
Proof.
  revert acc. induction o as [|[k1 v1] o IH]; intros acc Ho Hacc; [done|].
  inversion Ho; subst. apply IH; [done|]. by apply obj_set_Forall.
Qed.

(** ** Numbers as text *)

Lemma read_uint_no_digit (s : str) :
  ends_number s -> read_uint s = (Nil, s).
Proof.
  destruct s as [|c r]; simpl; [done|]. intros (Hc & _).
  repeat match goal with
         | |- context [N.eqb c ?k] => destruct (N.eqb_spec c k) as [->|_]; [lia|]
         end.
  done.
Qed.

Lemma read_uint_chars (u : Decimal.uint) (rest : str) :
  ends_number rest -> read_uint (uint_chars u ++ rest) = (u, rest).
Proof.
  intros Hrest. induction u; cbn [uint_chars app];
    [by apply read_uint_no_digit|..];
    cbn [read_uint N.eqb Pos.eqb]; by rewrite IHu.
Qed.

Lemma uint_chars_head (u : Decimal.uint) (c : N) (r : str) :
  uint_chars u = c :: r -> 48 <= c <= 57.
Proof. destruct u; simpl; intros [= <- _]; lia. Qed.

Lemma to_uint_normal (n : N) : unorm (N.to_uint n) = N.to_uint n.
Proof.
  rewrite <- (DecimalN.Unsigned.to_of (N.to_uint n)).
  by rewrite DecimalN.Unsigned.of_to.
Qed.

(** The digits of a number start with [0] only for the number zero. *)
Lemma to_uint_leading_zero (n : N) (u : Decimal.uint) :
  N.to_uint n = D0 u -> u = Nil.
Proof.
  intros E. pose proof (to_uint_normal n) as Hn. rewrite E in Hn.
  rewrite unorm_D0 in Hn. unfold unorm in Hn.
  destruct (nzhead u) eqn:Hu; try (by destruct u; inversion Hn).
  all: by destruct (nzhead_nonzero u u); rewrite Hu, Hn.
Qed.

Lemma to_uint_not_nil (n : N) : N.to_uint n <> Nil.
Proof.
  destruct n; simpl; [done|]. apply DecimalPos.Unsigned.to_uint_nonnil.
Qed.

Lemma parse_int_part_digits (m : N) (rest : str) :
  ends_number rest ->
  parse_int_part (N_to_str m ++ rest) = POk (N.to_uint m) rest.
Proof.
  intros Hrest. unfold N_to_str.
  pose proof (to_uint_not_nil m) as Hnil.
  pose proof (to_uint_leading_zero m) as Hzero.
  pose proof (read_uint_chars (N.to_uint m) rest Hrest) as Hread.
  destruct (N.to_uint m) as [|u|u|u|u|u|u|u|u|u|u]; [done|..];
    [by rewrite (Hzero u eq_refl)|..];
    unfold parse_int_part; rewrite Hread; reflexivity.
Qed.

Lemma parse_frac_part_none (rest : str) :
  ends_number rest -> parse_frac_part rest = POk Nil rest.
Proof.
  destruct rest as [|c r]; simpl; [done|]. intros (_ & Hc & _).
  by destruct (N.eqb_spec c 46).
Qed.

Lemma parse_exp_part_none (rest : str) :
  ends_number rest -> parse_exp_part rest = POk 0%Z rest.
Proof.
  destruct rest as [|c r]; simpl; [done|]. intros (_ & _ & Hc & Hc').
  by destruct (N.eqb_spec c 101), (N.eqb_spec c 69).
Qed.

Lemma N_to_str_head (m : N) :
  exists c r, N_to_str m = c :: r /\ 48 <= c <= 57.
Proof.
  unfold N_to_str. pose proof (to_uint_not_nil m) as Hnil.
  destruct (uint_chars (N.to_uint m)) as [|c r] eqn:E.
  - by destruct (N.to_uint m).
  - exists c, r. split; [done|]. by apply (uint_chars_head _ _ _ E).
Qed.

Lemma parse_number_nonneg (m : N) (rest : str) :
  ends_number rest ->
  parse_number (N_to_str m ++ rest) = POk (VNum (Z.of_N m) 0) rest.
Proof.
  intros Hrest. unfold parse_number.
  destruct (N_to_str_head m) as (c & r & E & Hc).
  assert (Hsign : match N_to_str m ++ rest with
                  | [] => (false, N_to_str m ++ rest)
                  | c :: r => if c =? 45 then (true, r)
                              else (false, N_to_str m ++ rest)
                  end = (false, N_to_str m ++ rest)).
  { rewrite E. simpl. destruct (N.eqb_spec c 45); [lia|done]. }
  rewrite Hsign, (parse_int_part_digits m rest Hrest). cbn [pbind].
  rewrite (parse_frac_part_none rest Hrest). cbn [pbind].
  rewrite (parse_exp_part_none rest Hrest). cbn [pbind].
  rewrite DecimalFacts.app_nil_r, DecimalN.Unsigned.of_to. simpl.
  by rewrite Z.mul_1_r.
Qed.

(** Reading back the decimal text of an integer. *)
Lemma parse_number_Z_to_str (n : Z) (rest : str) :
  ends_number rest ->
  parse_number (Z_to_str n ++ rest) = POk (VNum n 0) rest.
Proof.
  intros Hrest. destruct n as [|p|p].
  - apply (parse_number_nonneg 0 rest Hrest).
  - apply (parse_number_nonneg (Npos p) rest Hrest).
  - unfold Z_to_str, parse_number. cbn [app N.eqb Pos.eqb].
    rewrite (parse_int_part_digits (Npos p) rest Hrest). cbn [pbind].
    rewrite (parse_frac_part_none rest Hrest). cbn [pbind].
    rewrite (parse_exp_part_none rest Hrest). cbn [pbind].
    rewrite DecimalFacts.app_nil_r, DecimalN.Unsigned.of_to. simpl.
    change (10 ^ (0 - Z.of_nat 0))%Z with 1%Z. do 2 f_equal. lia.
Qed.

(** ** Strings as text *)

Lemma hex_val_digit (d : N) : d < 16 -> hex_val (hex_digit d) = Some d.
Proof.
  intros Hd. unfold hex_digit, hex_val.
  destruct (N.ltb_spec d 10).
  - replace (48 <=? 48 + d) with true by (symmetry; apply N.leb_le; lia).
    replace (48 + d <=? 57) with true by (symmetry; apply N.leb_le; lia).
    simpl. f_equal. lia.
  - replace (87 + d <=? 57) with false by (symmetry; apply N.leb_gt; lia).
    replace (87 + d <=? 70) with false by (symmetry; apply N.leb_gt; lia).
    replace (97 <=? 87 + d) with true by (symmetry; apply N.leb_le; lia).
    replace (87 + d <=? 102) with true by (symmetry; apply N.leb_le; lia).
    rewrite !andb_false_r. simpl. f_equal. lia.
Qed.

Lemma hex_digits_value (c : N) :
  c < 65536 ->
  (c / 4096 mod 16) * 4096 + (c / 256 mod 16) * 256 + (c / 16 mod 16) * 16
    + c mod 16 = c.
Proof.
  intros Hc.
  pose proof (N.div_mod c 16 ltac:(done)) as H0.
  pose proof (N.div_mod (c / 16) 16 ltac:(done)) as H1.
  pose proof (N.div_mod (c / 256) 16 ltac:(done)) as H2.
  replace (c / 256) with (c / 16 / 16) in * by (rewrite N.Div0.div_div; done).
  replace (c / 4096) with (c / 16 / 16 / 16) by (rewrite !N.Div0.div_div; done).
  assert (H3 : c / 16 / 16 / 16 < 16).
  { rewrite !N.Div0.div_div. by apply N.Div0.div_lt_upper_bound. }
  rewrite (N.mod_small _ _ H3). lia.
Qed.

(** Reading a character that was written as it is. *)
Lemma parse_chars_raw (c : N) (s : str) :
  c <> 34 -> c <> 92 -> 32 <= c ->
  parse_chars (c :: s)
  = parse t rest r := parse_chars s in POk (c :: t) r.
Proof.
  intros H1 H2 H3. cbn [parse_chars].
  destruct (N.eqb_spec c 34); [done|]. destruct (N.eqb_spec c 92); [done|].
  destruct (N.ltb_spec c 32); [lia|done].
Qed.

(** Reading a character that was written [\uXXXX]. *)
Lemma parse_chars_unicode_escape (c : N) (s : str) :
  c < 65536 ->
  parse_chars (unicode_escape c ++ s)
  = parse t rest r := parse_chars s in POk (c :: t) r.
Proof.
  intros Hc. unfold unicode_escape. cbn [app parse_chars N.eqb Pos.eqb].
  assert (Hm : forall x, x mod 16 < 16) by (intros x; by apply N.mod_lt).
  rewrite !hex_val_digit by apply Hm.
  by rewrite (hex_digits_value c Hc).
Qed.

Lemma parse_chars_quote_unit (c : N) (s : str) :
  is_lead_surrogate c = false -> is_trail_surrogate c = false ->
  parse_chars (quote_unit c ++ s)
  = parse t rest r := parse_chars s in POk (c :: t) r.
Proof.
  intros _ _. unfold quote_unit.
  repeat match goal with
         | |- context [N.eqb c ?k] =>
             destruct (N.eqb_spec c k) as [->|?]; [reflexivity|]
         end.
  destruct (N.ltb_spec c 32).
  - apply parse_chars_unicode_escape. lia.
  - by apply parse_chars_raw.
Qed.

Lemma parse_chars_quote_units_bounded (n : nat) (k rest : str) :
  (length k <= n)%nat ->
  parse_chars (quote_units k ++ 34 :: rest) = POk k rest.
Proof.
  revert k. induction n as [|n IH]; intros [|c r] Hlen; simpl in Hlen;
    try reflexivity; try lia.
  cbn [quote_units].
  assert (Hsur : forall x, is_lead_surrogate x = true \/ is_trail_surrogate x = true ->
                   x <> 34 /\ x <> 92 /\ 32 <= x /\ x < 65536).
  { intros x. unfold is_lead_surrogate, is_trail_surrogate.
    rewrite !andb_true_iff, !N.leb_le. lia. }
  destruct (is_lead_surrogate c) eqn:Hlead.
  - destruct (Hsur c (or_introl Hlead)) as (? & ? & ? & ?).
    destruct r as [|d r'].
    + by rewrite parse_chars_unicode_escape.
    + destruct (is_trail_surrogate d) eqn:Htrail.
      * destruct (Hsur d (or_intror Htrail)) as (? & ? & ? & ?).
        cbn [app]. rewrite parse_chars_raw, parse_chars_raw by done.
        rewrite IH by (simpl in Hlen; lia). done.
      * rewrite <- app_assoc, parse_chars_unicode_escape by done.
        rewrite IH by (simpl in *; lia). done.
  - destruct (is_trail_surrogate c) eqn:Htrail.
    + destruct (Hsur c (or_intror Htrail)) as (? & ? & ? & ?).
      rewrite <- app_assoc, parse_chars_unicode_escape by done.
      rewrite IH by lia. done.
    + rewrite <- app_assoc, parse_chars_quote_unit by done.
      rewrite IH by lia. done.
Qed.

(** Reading back a string that [JSON.stringify] wrote, whatever follows
    its closing quote. *)
Lemma parse_chars_quote_units (k rest : str) :
  parse_chars (quote_units k ++ 34 :: rest) = POk k rest.
Proof. by apply (parse_chars_quote_units_bounded (length k)). Qed.

(** ** Counter maps as text *)

Lemma serialize_counter_map (o : list (str * value)) :
  counter_map o ->
  serialize (VObj o) = 123 :: array_join [44] (map member_text o) ++ [125].
Proof.
  intros Ho. cbn [serialize]. do 3 f_equal.
  induction Ho as [|[k v] o (n & Hv) Ho IH]; [done|].
  simpl in Hv. subst v. cbn [is_undefined map]. by rewrite IH.
Qed.

Lemma Z_to_str_head (n : Z) :
  exists c r, Z_to_str n = c :: r /\ (c = 45 \/ 48 <= c <= 57).
Proof.
  destruct n as [|p|p].
  - destruct (N_to_str_head 0) as (c & r & E & Hc). exists c, r. eauto.
  - destruct (N_to_str_head (Npos p)) as (c & r & E & Hc). exists c, r. eauto.
  - exists 45, (N_to_str (Npos p)). eauto.
Qed.

Lemma parse_value_number (fuel : nat) (n : Z) (rest : str) :
  (0 < fuel)%nat -> ends_number rest ->
  parse_value fuel (Z_to_str n ++ rest) = POk (VNum n 0) rest.
Proof.
  intros Hfuel Hrest. destruct fuel as [|fuel]; [lia|].
  pose proof (parse_number_Z_to_str n rest Hrest) as Hnum.
  destruct (Z_to_str_head n) as (c & r & E & Hc). rewrite E in *.
  cbn [parse_value app skip_ws].
  assert (Hws : is_json_ws c = false).
  { unfold is_json_ws.
    repeat match goal with
           | |- context [N.eqb c ?k] => destruct (N.eqb_spec c k); [lia|]
           end. done. }
  rewrite Hws.
  repeat match goal with
         | |- context [N.eqb c ?k] => destruct (N.eqb_spec c k); [lia|]
         end.
  exact Hnum.
Qed.

(** One member of a counter map, and what follows it. *)
Lemma parse_members_step (fuel : nat) (acc : list (str * value))
  (k : str) (n : Z) (d : N) (rest : str) :
  (0 < fuel)%nat -> d = 44 \/ d = 125 ->
  parse_members (S fuel) acc (member_text (k, VNum n 0) ++ d :: rest)
  = if d =? 44 then parse_members fuel (obj_set k (VNum n 0) acc) rest
    else POk (VObj (obj_set k (VNum n 0) acc)) rest.
Proof.
  intros Hfuel Hd. unfold member_text, quote.
  cbn [fst snd serialize app parse_members skip_ws is_json_ws N.eqb Pos.eqb orb].
  change (number_to_str n 0) with (Z_to_str n).
  rewrite <- !app_assoc. cbn [app].
  rewrite parse_chars_quote_units.
  cbn [pbind skip_ws is_json_ws N.eqb Pos.eqb orb].
  rewrite parse_value_number; [|done|destruct Hd; subst d; simpl; lia].
  cbn [pbind]. destruct Hd; subst d; reflexivity.
Qed.

Lemma parse_members_counter_map (o : list (str * value)) :
  counter_map o -> o <> [] ->
  forall fuel acc rest,
    (length o < fuel)%nat ->
    parse_members fuel acc (array_join [44] (map member_text o) ++ 125 :: rest)
    = POk (VObj (obj_build o acc)) rest.
Proof.
  induction 1 as [|[k v] o (n & Hv) Ho IH]; [done|]. intros _ fuel acc rest Hfuel.
  simpl in Hv. subst v. simpl in Hfuel.
  destruct fuel as [|fuel]; [lia|].
  destruct o as [|kv o'].
  - cbn [map array_join]. rewrite parse_members_step by (auto; lia). done.
  - change (array_join [44] (map member_text ((k, VNum n 0) :: kv :: o')))
      with (member_text (k, VNum n 0)
              ++ 44 :: array_join [44] (map member_text (kv :: o'))).
    rewrite <- app_assoc. cbn [app].
    rewrite parse_members_step by (auto; simpl in *; lia).
    cbn [N.eqb Pos.eqb]. rewrite IH by (done || simpl in *; lia). done.
Qed.

Lemma array_join_length (sep : str) (l : list str) :
  Forall (fun x => x <> []) l -> (length l <= length (array_join sep l))%nat.
Proof.
  induction 1 as [|x l Hx Hl IH]; [done|].
  destruct l as [|y l'].
  - simpl. destruct x; [done|simpl; lia].
  - change (array_join sep (x :: y :: l'))
      with (x ++ sep ++ array_join sep (y :: l')).
    rewrite !length_app. destruct x; [done|]. simpl in *. lia.
Qed.

(** Reading back the text of a counter map: the properties are made again
    one after the other. *)
Lemma JSON_parse_serialize_counter_map (o : list (str * value)) :
  counter_map o ->
  JSON_parse (serialize (VObj o)) = Return (VObj (obj_build o [])).
Proof.
  intros Ho. rewrite (serialize_counter_map o Ho).
  destruct o as [|kv o']; [reflexivity|].
  set (body := array_join [44] (map member_text (kv :: o'))).
  assert (Hlen : (length (kv :: o') <= length body)%nat).
  { unfold body. etransitivity; [|apply array_join_length].
    - by rewrite length_map.
    - apply Forall_forall. intros x Hx. apply list_elem_of_fmap in Hx.
      destruct Hx as (y & -> & _). done. }
  assert (Hhead : exists r, body = 34 :: r).
  { unfold body. destruct o'; simpl; eauto. }
  destruct Hhead as (r & Hr).
  unfold JSON_parse, parse_fuel.
  cbn [parse_value skip_ws is_json_ws N.eqb Pos.eqb orb app].
  rewrite Hr. cbn [app skip_ws is_json_ws N.eqb Pos.eqb orb].
  change (34 :: r ++ [125]) with ((34 :: r) ++ [125]). rewrite <- Hr.
  unfold body.
  rewrite (parse_members_counter_map (kv :: o') Ho); [done|done|].
  fold body. rewrite Hr in *. cbn [length]. rewrite length_app. cbn [length] in *. lia.
Qed.

(** ** What [JSON.parse] returns *)

Ltac parse_case H :=
  match type of H with
  | context [pbind ?m _] => destruct m eqn:?; cbn [pbind] in H
  | context [if ?b then _ else _] => destruct b eqn:?
  | context [match ?x with _ => _ end] => destruct x eqn:?
  end; try discriminate.

Lemma parse_number_is_number (s : str) (v : value) (r : str) :
  parse_number s = POk v r -> exists m k, v = VNum m k.
Proof.
  unfold parse_number. intros H.
  repeat parse_case H; inversion H; eauto.
Qed.

Lemma expect_word_value (w : str) (v0 : value) (s : str) (v : value) (r : str) :
  expect_word w v0 s = POk v r -> v = v0.
Proof. unfold expect_word. intros H. parse_case H. by inversion H. Qed.

Lemma parse_elements_is_array (fuel : nat) :
  forall acc s v r, parse_elements fuel acc s = POk v r -> exists l, v = VArr l [].
Proof.
  induction fuel as [|fuel IH]; intros acc s v r H; [done|].
  cbn [parse_elements] in H.
  repeat parse_case H; [by eapply IH|inversion H; eauto].
Qed.

Lemma parse_members_NoDup (fuel : nat) :
  forall acc s v r,
    NoDup acc.*1 -> parse_members fuel acc s = POk v r ->
    exists o, v = VObj o /\ NoDup o.*1.
Proof.
  induction fuel as [|fuel IH]; intros acc s v r Hacc H; [done|].
  cbn [parse_members] in H.
  repeat parse_case H.
  - eapply IH; [|done]. by apply obj_set_NoDup.
  - inversion H; subst. eexists. split; [done|]. by apply obj_set_NoDup.
Qed.

(** The properties of a parsed object have distinct keys. *)
Lemma parse_value_object_NoDup (fuel : nat) (s : str) (o : list (str * value))
  (r : str) :
  parse_value fuel s = POk (VObj o) r -> NoDup o.*1.
Proof.
  destruct fuel as [|fuel]; [done|]. cbn [parse_value]. intros H.
  destruct (skip_ws s) as [|c s']; [done|].
  destruct (c =? 123).
  { destruct (skip_ws s') as [|c1 r1]; [done|]. destruct (c1 =? 125).
    - inversion H. apply NoDup_nil_2.
    - apply parse_members_NoDup in H as (o' & [= ->] & Hnd); [done|].
      apply NoDup_nil_2. }
  destruct (c =? 91).
  { destruct (skip_ws s') as [|c1 r1]; [done|]. destruct (c1 =? 93); [done|].
    by apply parse_elements_is_array in H as (l & [=]). }
  destruct (c =? 34).
  { destruct (parse_chars s'); by cbn [pbind] in H. }
  destruct (c =? 116); [by apply expect_word_value in H|].
  destruct (c =? 102); [by apply expect_word_value in H|].
  destruct (c =? 110); [by apply expect_word_value in H|].
  by apply parse_number_is_number in H as (m & k & [=]).
Qed.

Lemma JSON_parse_object_NoDup (text : str) (o : list (str * value)) :
  JSON_parse text = Return (VObj o) -> NoDup o.*1.
Proof.
  unfold JSON_parse. intros H.
  destruct (parse_value (parse_fuel text) text) as [v r| |] eqn:E; try done.
  destruct (skip_ws r); [|done]. inversion H; subst.
  by apply parse_value_object_NoDup in E.
Qed.

(** ** The fuel of [JSON.parse] is never used up *)

Lemma within_bind {A B} (n : nat) (m : presult A) (k : A -> str -> presult B) :
  within n m ->
  (forall a r, (length r < n)%nat -> within (length r) (k a r) \/ within n (k a r)) ->
  within n (pbind m k).
Proof.
  destruct m as [a r| |]; simpl; [|done..]. intros Hr Hk.
  destruct (Hk a r Hr) as [H|H]; [|done].
  destruct (k a r); simpl in *; [lia|done..].
Qed.

Lemma within_weaken {A} (n n' : nat) (p : presult A) :
  (n <= n')%nat -> within n p -> within n' p.
Proof. destruct p; simpl; [lia|done..]. Qed.

Lemma skip_ws_length (s : str) : (length (skip_ws s) <= length s)%nat.
Proof.
  induction s as [|c s IH]; simpl; [done|].
  destruct (is_json_ws c); simpl; lia.
Qed.

Lemma skip_ws_cons (s : str) (c : N) (r : str) :
  skip_ws s = c :: r -> (length r < length s)%nat.
Proof.
  intros E. pose proof (skip_ws_length s) as H. rewrite E in H. simpl in H. lia.
Qed.

Lemma parse_chars_within_bounded (n : nat) (s : str) :
  (length s <= n)%nat -> within (length s) (parse_chars s).
Proof.
  revert s. induction n as [|n IH]; intros [|c r] Hlen; simpl in Hlen;
    try exact I; try lia.
  cbn [parse_chars].
  destruct (c =? 34); [simpl; lia|].
  destruct (c =? 92).
  - destruct r as [|e r1]; [exact I|].
    destruct (e =? 117).
    + destruct r1 as [|h1 [|h2 [|h3 [|h4 r2]]]]; try exact I.
      destruct (hex_val h1), (hex_val h2), (hex_val h3), (hex_val h4);
        try exact I.
      apply within_bind.
      * eapply within_weaken; [|apply IH]; simpl in *; lia.
      * intros t r3 Hr3. right. simpl in *. lia.
    + destruct (unescape e); [|exact I].
      apply within_bind.
      * eapply within_weaken; [|apply IH]; simpl in *; lia.
      * intros t r3 Hr3. right. simpl in *. lia.
  - destruct (c <? 32); [exact I|].
    apply within_bind.
    + eapply within_weaken; [|apply IH]; simpl in *; lia.
    + intros t r3 Hr3. right. simpl in *. lia.
Qed.

Lemma parse_chars_within (s : str) : within (length s) (parse_chars s).
Proof. by apply (parse_chars_within_bounded (length s)). Qed.

Lemma read_uint_length (s : str) :
  (length (read_uint s).2 <= length s)%nat
  /\ ((read_uint s).1 <> Nil -> (length (read_uint s).2 < length s)%nat).
Proof.
  induction s as [|c r IH]; [done|]. cbn [read_uint].
  destruct (read_uint r) as [u rest]. simpl in IH.
  repeat match goal with
         | |- context [if ?b then _ else _] => destruct b
         end; simpl; split; intros; try done; lia.
Qed.

Lemma parse_digits_within (s : str) : within (length s) (parse_digits s).
Proof.
  unfold parse_digits. pose proof (read_uint_length s) as [_ H].
  destruct (read_uint s) as [u r]. simpl in H.
  destruct u; try exact I; simpl; by apply H.
Qed.

Lemma parse_number_within (s : str) : within (length s) (parse_number s).
Proof.
  unfold parse_number.
  set (sign := match s with
               | [] => (false, s)
               | c :: r => if c =? 45 then (true, r) else (false, s)
               end).
  assert (Hsign : (length sign.2 <= length s)%nat).
  { unfold sign. destruct s as [|c r]; [done|]. destruct (c =? 45); simpl; lia. }
  destruct sign as [neg s1]. simpl in Hsign.
  apply within_bind.
  - eapply within_weaken; [exact Hsign|].
    unfold parse_int_part. destruct s1 as [|c r]; [exact I|].
    destruct (c =? 48); [simpl; lia|]. apply (parse_digits_within (c :: r)).
  - intros i s2 Hs2. right. apply within_bind.
    + unfold parse_frac_part. destruct s2 as [|c r]; [done|].
      destruct (c =? 46); [|done].
      eapply within_weaken; [|apply parse_digits_within]. simpl in *. lia.
    + intros f s3 Hs3. right. apply within_bind.
      * unfold parse_exp_part. destruct s3 as [|c r]; [done|].
        destruct ((c =? 101) || (c =? 69)); [|done].
        set (sg := match r with
                   | [] => (false, r)
                   | g :: r1 => if g =? 43 then (false, r1)
                                else if g =? 45 then (true, r1) else (false, r)
                   end).
        assert (Hsg : (length sg.2 <= length r)%nat).
        { unfold sg. destruct r as [|g r1]; [done|].
          destruct (g =? 43); [simpl; lia|]. destruct (g =? 45); simpl; lia. }
        destruct sg as [neg' r']. simpl in Hsg.
        apply within_bind.
        -- eapply within_weaken; [|apply parse_digits_within]. simpl in *. lia.
        -- intros u r2 Hr2. right. simpl in *. lia.
      * intros e s4 Hs4. right. destruct (_ <=? _)%Z; simpl in *; lia.
Qed.

Lemma expect_word_within (w : str) (v : value) (s : str) :
  w <> [] -> within (length s) (expect_word w v s).
Proof.
  intros Hw. unfold expect_word.
  destruct (str_eqb (take (length w) s) w) eqn:E; [|exact I].
  apply str_eqb_eq in E. simpl. rewrite length_drop.
  destruct w as [|c w]; [done|]. destruct s as [|c' s]; [done|]. simpl. lia.
Qed.

Lemma parse_fuel_enough (fuel : nat) :
  (forall s, (2 * length s < fuel)%nat -> within (length s) (parse_value fuel s))
  /\ (forall acc s, (2 * length s + 1 < fuel)%nat ->
        within (length s) (parse_members fuel acc s))
  /\ (forall acc s, (2 * length s + 1 < fuel)%nat ->
        within (length s) (parse_elements fuel acc s)).
Proof.
  induction fuel as [|fuel (IHv & IHm & IHe)]; [repeat split; intros; lia|].
  split; [|split].
  - intros s Hs. cbn [parse_value].
    pose proof (skip_ws_length s) as Hskip.
    destruct (skip_ws s) as [|c r] eqn:E; [exact I|]. simpl in Hskip.
    destruct (c =? 123).
    { pose proof (skip_ws_length r) as Hskip'.
      destruct (skip_ws r) as [|c1 r1]; [exact I|]. simpl in Hskip'.
      destruct (c1 =? 125); [simpl; lia|].
      eapply within_weaken; [|apply IHm]; simpl; lia. }
    destruct (c =? 91).
    { pose proof (skip_ws_length r) as Hskip'.
      destruct (skip_ws r) as [|c1 r1]; [exact I|]. simpl in Hskip'.
      destruct (c1 =? 93); [simpl; lia|].
      eapply within_weaken; [|apply IHe]; simpl; lia. }
    destruct (c =? 34).
    { apply within_bind.
      - eapply within_weaken; [|apply parse_chars_within]. lia.
      - intros t r1 Hr1. right. simpl. lia. }
    destruct (c =? 116);
      [eapply within_weaken; [|by apply expect_word_within]; simpl; lia|].
    destruct (c =? 102);
      [eapply within_weaken; [|by apply expect_word_within]; simpl; lia|].
    destruct (c =? 110);
      [eapply within_weaken; [|by apply expect_word_within]; simpl; lia|].
    eapply within_weaken; [|apply parse_number_within]. simpl; lia.
  - intros acc s Hs. cbn [parse_members].
    pose proof (skip_ws_length s) as Hskip.
    destruct (skip_ws s) as [|q r] eqn:E; [exact I|]. simpl in Hskip.
    destruct (q =? 34); [|exact I].
    apply within_bind.
    + eapply within_weaken; [|apply parse_chars_within]. lia.
    + intros k r1 Hr1. right.
      pose proof (skip_ws_length r1) as Hskip1.
      destruct (skip_ws r1) as [|c r2]; [exact I|]. simpl in Hskip1.
      destruct (c =? 58); [|exact I].
      apply within_bind.
      * eapply within_weaken; [|apply IHv]; lia.
      * intros v r3 Hr3. right.
        pose proof (skip_ws_length r3) as Hskip3.
        destruct (skip_ws r3) as [|d r4]; [exact I|]. simpl in Hskip3.
        destruct (d =? 44).
        { eapply within_weaken; [|apply IHm]; lia. }
        destruct (d =? 125); [simpl; lia|exact I].
  - intros acc s Hs. cbn [parse_elements].
    apply within_bind.
    + apply IHv. lia.
    + intros v r1 Hr1. right.
      pose proof (skip_ws_length r1) as Hskip1.
      destruct (skip_ws r1) as [|d r2]; [exact I|]. simpl in Hskip1.
      destruct (d =? 44).
      { eapply within_weaken; [|apply IHe]; lia. }
      destruct (d =? 93); [simpl; lia|exact I].
Qed.

(** [JSON.parse] never stops for want of fuel: a SyntaxError of the model
    is a text that the grammar rejects. *)
Lemma JSON_parse_fuel (text : str) : parse_value (parse_fuel text) text <> PFuel.
Proof.
  destruct (parse_fuel_enough (parse_fuel text)) as (Hv & _).
  specialize (Hv text). unfold parse_fuel in *.
  destruct (parse_value (S (2 * length text)) text); [done|done|].
  intros _. apply Hv. lia.
Qed.

(** ** Reading the counters *)

Lemma getDebateCounts_absent (st : State) :
  localStorage st !! lit "debateCounts" = None
  \/ localStorage st !! lit "debateCounts" = Some [] ->
  getDebateCounts st = (Return (VObj []), st).
Proof.
  unfold getDebateCounts, bind, localStorage_getItem. by intros [-> | ->].
Qed.

Lemma getDebateCounts_text (st : State) (text : str) :
  localStorage st !! lit "debateCounts" = Some text -> text <> [] ->
  getDebateCounts st = (JSON_parse text, st).
Proof.
  unfold getDebateCounts, bind, localStorage_getItem. intros -> Hne.
  by destruct text.
Qed.

Lemma getDebateCounts_state (st : State) : snd (getDebateCounts st) = st.
Proof.
  unfold getDebateCounts, bind, localStorage_getItem. simpl.
  destruct (localStorage st !! lit "debateCounts") as [text|]; [|done].
  by destruct (str_truthy text).
Qed.

Lemma getDebateCounts_eq (st : State) (v : value) :
  fst (getDebateCounts st) = Return v -> getDebateCounts st = (Return v, st).
Proof.
  intros H. pose proof (getDebateCounts_state st) as Hst.
  destruct (getDebateCounts st); simpl in *. congruence.
Qed.

Lemma getDebateCounts_NoDup (st : State) (o : list (str * value)) :
  fst (getDebateCounts st) = Return (VObj o) -> NoDup o.*1.
Proof.
  unfold getDebateCounts, bind, localStorage_getItem. simpl.
  destruct (localStorage st !! lit "debateCounts") as [text|].
  - destruct (str_truthy text); simpl.
    + apply JSON_parse_object_NoDup.
    + intros [= <-]. apply NoDup_nil_2.
  - intros [= <-]. apply NoDup_nil_2.
Qed.

Lemma counter_map_get (o : list (str * value)) (k : str) (v : value) :
  counter_map o -> obj_get k o = Some v -> exists n : Z, v = VNum n 0.
Proof.
  induction 1 as [|[k1 v1] o Hv Ho IH]; simpl; [done|].
  destruct (str_eqb k1 k); [|done]. by intros [= <-].
Qed.

(** [counts[id] || 0] on a counter map is the stored count. *)
Lemma counter_or_zero (o : list (str * value)) (debateId : Z) :
  counter_map o ->
  js_or (default VUndefined (obj_get (Z_to_str debateId) o)) (VNum 0 0)
  = VNum (stored_count o debateId) 0.
Proof.
  intros Ho. unfold stored_count.
  destruct (obj_get (Z_to_str debateId) o) as [v|] eqn:E; [|done].
  destruct (counter_map_get o _ v Ho E) as (n & ->). simpl.
  unfold js_or. simpl. destruct (Z.eqb_spec n 0) as [->|]; reflexivity.
Qed.

Lemma add_one_count (n : Z) :
  js_add_int (VNum n 0) 1 = Return (VNum (round_int (n + 1)) 0).
Proof. reflexivity. Qed.

(** An integer up to [2^53] in magnitude is a double: a sum that is one is
    not rounded. *)
Lemma round_int_exact (z : Z) : exact_int z -> round_int z = z.
Proof.
  unfold exact_int, round_int. intros Hz.
  destruct (Z.leb_spec (Z.abs z) (2 ^ 53)) as [|Hlt]; [done|]. lia.
Qed.

Lemma next_count_exact (o : list (str * value)) (debateId : Z) :
  exact_int (stored_count o debateId + 1) ->
  next_count o debateId = VNum (stored_count o debateId + 1) 0.
Proof. intros Hz. unfold next_count. by rewrite round_int_exact. Qed.

Lemma serialize_object_not_nil (o : list (str * value)) : serialize (VObj o) <> [].
Proof. done. Qed.

Lemma counter_map_set (o : list (str * value)) (k : str) (n : Z) :
  counter_map o -> counter_map (obj_set k (VNum n 0) o).
Proof.
  intros Ho. apply (obj_set_Forall (fun v => exists n : Z, v = VNum n 0)); eauto.
Qed.

Lemma counter_map_build (o : list (str * value)) :
  counter_map o -> counter_map (obj_build o []).
Proof.
  intros Ho.
  by apply (obj_build_Forall (fun v => exists n : Z, v = VNum n 0)).
Qed.

(** ** Incrementing a counter *)

(** What [incrementDebateCount] does when the stored counters are a
    counter map [o]. *)
Lemma incrementDebateCount_run (debateId : Z) (st : State)
  (o : list (str * value)) :
  fst (getDebateCounts st) = Return (VObj o) -> counter_map o ->
  let new := next_count o debateId in
  let text := serialize (VObj (obj_set (Z_to_str debateId) new o)) in
  incrementDebateCount debateId st
  = (Return tt,
     {| this := reflect_count debateId new (this st);
        localStorage := <[lit "debateCounts" := text]> (localStorage st);
        trace := trace st ++ [SetItem (lit "debateCounts") text] |}).
Proof.
  intros Hget Ho new text. apply getDebateCounts_eq in Hget.
  unfold incrementDebateCount, bind. rewrite Hget.
  unfold lift. cbn [get_prop].
  rewrite (counter_or_zero o debateId Ho), add_one_count.
  cbn [set_prop JSON_stringify is_undefined default localStorage_setItem
       get_this this].
  fold (next_count o debateId). fold new. fold text. unfold reflect_count.
  destruct (list_find _ (debates (this st))) as [[i debate]|]; [|done].
  cbn [get_prop]. rewrite obj_get_set, decide_True by done. done.
Qed.

(** Reading the counters after [incrementDebateCount] has written them. *)
Lemma getDebateCounts_after_write (st : State) (o : list (str * value)) :
  counter_map o ->
  localStorage st !! lit "debateCounts" = Some (serialize (VObj o)) ->
  getDebateCounts st = (Return (VObj (obj_build o [])), st).
Proof.
  intros Ho Hls.
  rewrite (getDebateCounts_text st _ Hls (serialize_object_not_nil o)).
  by rewrite (JSON_parse_serialize_counter_map o Ho).
Qed.

Lemma stored_count_build (o : list (str * value)) (debateId : Z) :
  NoDup o.*1 -> stored_count (obj_build o []) debateId = stored_count o debateId.
Proof.
  intros Hnd. unfold stored_count. rewrite (obj_get_build _ o [] Hnd).
  by destruct (obj_get (Z_to_str debateId) o).
Qed.

Lemma stored_count_set (o : list (str * value)) (debateId : Z) (n : Z) :
  stored_count (obj_set (Z_to_str debateId) (VNum n 0) o) debateId = n.
Proof. unfold stored_count. by rewrite obj_get_set, decide_True. Qed.

Section StoredCounterMap.

(** The state [st] holds the counter map [o] under ['debateCounts'] (or
    nothing, and [o] is empty). *)
Context (st : State) (o : list (str * value)).
Hypothesis Hget : fst (getDebateCounts st) = Return (VObj o).
Hypothesis Ho : counter_map o.

Lemma stored_keys_NoDup : NoDup o.*1.
Proof. by apply (getDebateCounts_NoDup st). Qed.

(** What [openSetup] does, and what the counters are afterwards. *)
Lemma openSetup_run (d : Debate) :
  let new := next_count o (id d) in
  let o' := obj_set (Z_to_str (id d)) new o in
  let st' :=
    {| this := reflect_count (id d) new (select (Some d) (this st));
       localStorage := <[lit "debateCounts" := serialize (VObj o')]> (localStorage st);
       trace := trace st ++ [SetItem (lit "debateCounts") (serialize (VObj o'))] |} in
  openSetup d st = (Return tt, st')
  /\ getDebateCounts st' = (Return (VObj (obj_build o' [])), st')
  /\ counter_map (obj_build o' [])
  /\ VNum (stored_count (obj_build o' []) (id d)) 0 = new.
Proof.
  intros new o' st'.
  assert (Ho' : counter_map o') by by apply counter_map_set.
  assert (Hnd : NoDup o'.*1) by (apply obj_set_NoDup, stored_keys_NoDup).
  split; [|split; [|split]].
  - unfold openSetup, bind, get_this, set_this.
    set (st0 := {| this := _; localStorage := localStorage st; trace := trace st |}).
    assert (Hget0 : fst (getDebateCounts st0) = Return (VObj o)).
    { rewrite <- Hget. unfold getDebateCounts, bind, localStorage_getItem. simpl.
      destruct (localStorage st !! lit "debateCounts") as [text|]; [|done].
      by destruct (str_truthy text). }
    by rewrite (incrementDebateCount_run (id d) st0 o Hget0 Ho).
  - apply getDebateCounts_after_write; [done|].
    unfold st'. simpl. by rewrite lookup_insert_eq.
  - by apply counter_map_build.
  - rewrite (stored_count_build o' (id d) Hnd). unfold o', new, next_count.
    by rewrite stored_count_set.
Qed.

Lemma read_counter_after_openSetup (d : Debate) :
  fst (read_counter (id d) (snd (openSetup d st)))
  = Return (next_count o (id d)).
Proof.
  destruct (openSetup_run d) as (Hrun & Hget' & _ & _).
  rewrite Hrun. cbn [snd]. unfold read_counter, bind. rewrite Hget'.
  unfold lift. cbn [fst get_prop]. rewrite obj_get_build.
  - by rewrite obj_get_set, decide_True.
  - apply obj_set_NoDup, stored_keys_NoDup.
Qed.

End StoredCounterMap.

(** C2, as stated, fails: with the text [{"3":9007199254740992}] under
    ['debateCounts'], the counter of debate 3 is [2^53]; the counter read
    after [openSetup] of that debate is 9007199254740992 again, not the
    previous one plus 1, and after a second [openSetup] it is still
    9007199254740992: [2^53 + 1] is not a double, and the sum is rounded to
    [2^53]. *)
Lemma openSetup_counter_stays_at_2_53 :
  let d := mkDebate 3 (lit "X") in
  let text := 123 :: 34 :: lit "3" ++ 34 :: 58 :: lit "9007199254740992" ++ [125] in
  let st := {| this := new_component;
               localStorage := {[ lit "debateCounts" := text ]};
               trace := [] |} in
  let st1 := snd (openSetup d st) in
  let st2 := snd (openSetup d st1) in
  fst (getDebateCounts st) = Return (VObj [(lit "3", VNum (2 ^ 53) 0)])
  /\ fst (read_counter 3 st) = Return (VNum 9007199254740992 0)
  /\ fst (openSetup d st) = Return tt
  /\ fst (read_counter 3 st1) = Return (VNum 9007199254740992 0)
  /\ fst (read_counter 3 st1) <> Return (VNum (9007199254740992 + 1) 0)
  /\ fst (openSetup d st1) = Return tt
  /\ fst (read_counter 3 st2) = Return (VNum 9007199254740992 0)
  /\ fst (read_counter 3 st2) <> Return (VNum (9007199254740992 + 2) 0).
Proof. vm_compute. repeat split; discriminate. Qed.

(** The same below [-2^53]: from the counter -9007199254740994, which is a
    double, one [openSetup] leads to -9007199254740992, the previous one
    plus 2. *)
Lemma openSetup_counter_below_minus_2_53 :
  let d := mkDebate 3 (lit "X") in
  let text := 123 :: 34 :: lit "3" ++ 34 :: 58 :: lit "-9007199254740994" ++ [125] in
  let st := {| this := new_component;
               localStorage := {[ lit "debateCounts" := text ]};
               trace := [] |} in
  fst (read_counter 3 st) = Return (VNum (-9007199254740994) 0)
  /\ fst (read_counter 3 (snd (openSetup d st)))
     = Return (VNum (-9007199254740992) 0).
Proof. vm_compute. by split. Qed.

(** C2, amended: when the stored counters are a counter map (the key may
    also be absent: the empty map), [openSetup(d)] returns normally, the
    first time and the second time.  When the previous counter for [d.id]
    (0 when there is none) is an integer from [-2^53] to [2^53 - 1], the
    counter read after the call is the previous one plus 1; when it is
    from [-2^53] to [2^53 - 2], the counter read after a second call is
    the previous one plus 2. *)
Theorem openSetup_increments_counter (d : Debate) (st : State)
  (o : list (str * value)) :
  fst (getDebateCounts st) = Return (VObj o) -> counter_map o ->
  let prev := stored_count o (id d) in
  let st1 := snd (openSetup d st) in
  let st2 := snd (openSetup d st1) in
  fst (openSetup d st) = Return tt
  /\ fst (openSetup d st1) = Return tt
  /\ ((- 2 ^ 53 <= prev /\ prev + 1 <= 2 ^ 53)%Z ->
      fst (read_counter (id d) st1) = Return (VNum (prev + 1) 0))
  /\ ((- 2 ^ 53 <= prev /\ prev + 2 <= 2 ^ 53)%Z ->
      fst (read_counter (id d) st2) = Return (VNum (prev + 2) 0)).
Proof.
  intros Hget Ho prev st1 st2.
  destruct (openSetup_run st o Hget Ho d) as (Hrun & Hget1 & Ho1 & Hcount1).
  assert (Hget1' : fst (getDebateCounts st1) = Return (VObj (obj_build
            (obj_set (Z_to_str (id d)) (next_count o (id d)) o) []))).
  { unfold st1. rewrite Hrun. cbn [snd]. by rewrite Hget1. }
  destruct (openSetup_run st1 _ Hget1' Ho1 d) as (Hrun2 & _).
  split; [by rewrite Hrun|].
  split; [by rewrite Hrun2|].
  split.
  - intros Hprev. unfold st1.
    rewrite (read_counter_after_openSetup st o Hget Ho d).
    by rewrite next_count_exact by (unfold exact_int; fold prev; lia).
  - intros Hprev. unfold st2.
    rewrite (read_counter_after_openSetup st1 _ Hget1' Ho1 d).
    assert (Hnext : next_count o (id d) = VNum (prev + 1) 0).
    { apply next_count_exact. unfold exact_int. fold prev. lia. }
    rewrite Hnext in Hcount1 |- *. injection Hcount1 as Hcount1.
    unfold next_count. rewrite Hcount1.
    rewrite round_int_exact by (unfold exact_int; lia).
    do 2 f_equal. lia.
Qed.

Lemma openSetup_increments_counter_witness :
  let d := mkDebate 3 (lit "X") in
  let text := 123 :: 34 :: lit "3" ++ 34 :: 58 :: lit "41" ++ [125] in
  let st := {| this := new_component;
               localStorage := {[ lit "debateCounts" := text ]};
               trace := [] |} in
  let st1 := snd (openSetup d st) in
  let st2 := snd (openSetup d st1) in
  fst (read_counter 3 st1) = Return (VNum 42 0)
  /\ fst (read_counter 3 st2) = Return (VNum 43 0).
Proof.
  intros d text st st1 st2.
  assert (Hget : fst (getDebateCounts st) = Return (VObj [(lit "3", VNum 41 0)]))
    by reflexivity.
  assert (Ho : counter_map [(lit "3", VNum 41 0)]).
  { repeat constructor. by exists 41%Z. }
  assert (H1 : (- 2 ^ 53 <= 41 /\ 41 + 1 <= 2 ^ 53)%Z) by lia.
  assert (H2 : (- 2 ^ 53 <= 41 /\ 41 + 2 <= 2 ^ 53)%Z) by lia.
  destruct (openSetup_increments_counter d st _ Hget Ho) as (_ & _ & R1 & R2).
  split; [exact (R1 H1)|exact (R2 H2)].
Defined.

(** Whatever the stored counters are, [openSetup(d)] for a debate that is
    not listed leaves the component as it was, the selection apart. *)
Lemma openSetup_unlisted_component (d : Debate) (st : State) :
  Forall (fun e => id (base e) <> id d) (debates (this st)) ->
  this (snd (openSetup d st)) = select (Some d) (this st).
Proof.
  intros Hnot. unfold openSetup, bind, get_this, set_this.
  set (st0 := {| this := _; localStorage := localStorage st; trace := trace st |}).
  change (this (snd (incrementDebateCount (id d) st0)) = this st0).
  assert (Hfind : list_find (fun e => id (base e) = id d) (debates (this st0)) = None).
  { by apply list_find_None. }
  unfold incrementDebateCount, bind.
  pose proof (getDebateCounts_state st0) as Hs.
  destruct (getDebateCounts st0) as [[counts|e] s']; simpl in Hs; subst s'; [|done].
  unfold lift. destruct (get_prop counts (id d)) as [old|e]; [|done].
  destruct (js_add_int (js_or old (VNum 0 0)) 1) as [new|e]; [|done].
  destruct (set_prop counts (id d) new) as [counts'|e]; [|done].
  cbn [localStorage_setItem get_this this]. by rewrite Hfind.
Qed.

(** C10, as stated, fails: with the text [corrupted] under
    ['debateCounts'] and a list that has debate 3 only, [openSetup] of
    debate 9 selects it and ends with the SyntaxError of [JSON.parse]:
    nothing is written, no counter for debate 9 is stored and local
    storage is as it was. *)
Lemma openSetup_unlisted_nothing_written :
  let d := mkDebate 9 (lit "Dogs") in
  let listed := {| base := mkDebate 3 (lit "Cats"); selectionCount := VNum 4 0 |} in
  let st := {| this := with_debates [listed] new_component;
               localStorage := {[ lit "debateCounts" := lit "corrupted" ]};
               trace := [] |} in
  let st' := snd (openSetup d st) in
  Forall (fun e => id (base e) <> id d) (debates (this st))
  /\ fst (openSetup d st) = Throw SyntaxError
  /\ selectedDebate (this st') = Some d
  /\ trace st' = []
  /\ localStorage st' = localStorage st
  /\ localStorage st' !! lit "debateCounts" = Some (lit "corrupted").
Proof.
  intros d listed st st'.
  split; [|by vm_compute].
  repeat constructor. simpl. lia.
Qed.

(** And a counter that is written is not always an incremented one: with
    the text [{"9":9007199254740992}] stored, [openSetup] of debate 9,
    which is not listed, stores 9007199254740992 for it again. *)
Lemma openSetup_unlisted_counter_stays :
  let d := mkDebate 9 (lit "Dogs") in
  let listed := {| base := mkDebate 3 (lit "Cats"); selectionCount := VNum 4 0 |} in
  let text := 123 :: 34 :: lit "9" ++ 34 :: 58 :: lit "9007199254740992" ++ [125] in
  let st := {| this := with_debates [listed] new_component;
               localStorage := {[ lit "debateCounts" := text ]};
               trace := [] |} in
  let st' := snd (openSetup d st) in
  fst (read_counter 9 st) = Return (VNum 9007199254740992 0)
  /\ fst (openSetup d st) = Return tt
  /\ trace st' = [SetItem (lit "debateCounts") text]
  /\ fst (read_counter 9 st') = Return (VNum 9007199254740992 0).
Proof. vm_compute. by repeat split. Qed.

(** C10, amended: for a debate whose id is not in the list of the
    component, [openSetup(d)] selects [d] and leaves the list of debates,
    every [selectionCount] included, as it was, whatever local storage
    holds.  When the stored counters are a counter map (or absent), it
    returns normally after one write, under ['debateCounts'], and when the
    previous counter for [d.id] (0 when there is none) is an integer from
    [-2^53] to [2^53 - 1], the counter then stored for [d.id] is the
    previous one plus 1. *)
Theorem openSetup_unlisted_debate (d : Debate) (st : State) :
  Forall (fun e => id (base e) <> id d) (debates (this st)) ->
  let st' := snd (openSetup d st) in
  debates (this st') = debates (this st)
  /\ selectedDebate (this st') = Some d
  /\ viewMode (this st') = viewMode (this st)
  /\ debaterA (this st') = debaterA (this st)
  /\ debaterB (this st') = debaterB (this st)
  /\ (forall o,
        fst (getDebateCounts st) = Return (VObj o) -> counter_map o ->
        let prev := stored_count o (id d) in
        (exists text,
           openSetup d st
           = (Return tt,
              {| this := select (Some d) (this st);
                 localStorage := <[lit "debateCounts" := text]> (localStorage st);
                 trace := trace st ++ [SetItem (lit "debateCounts") text] |}))
        /\ ((- 2 ^ 53 <= prev /\ prev + 1 <= 2 ^ 53)%Z ->
            fst (read_counter (id d) st') = Return (VNum (prev + 1) 0))).
Proof.
  intros Hnot st'. unfold st'.
  rewrite (openSetup_unlisted_component d st Hnot).
  repeat (split; [done|]).
  intros o Hget Ho.
  destruct (openSetup_run st o Hget Ho d) as (Hrun & _).
  assert (Hfind : reflect_count (id d) (next_count o (id d))
                    (select (Some d) (this st))
                  = select (Some d) (this st)).
  { unfold reflect_count. cbn [select debates].
    by rewrite (proj2 (list_find_None _ _) Hnot). }
  rewrite Hfind in Hrun.
  split; [eexists; exact Hrun|].
  intros Hprev. rewrite (read_counter_after_openSetup st o Hget Ho d).
  by rewrite next_count_exact by (unfold exact_int; lia).
Qed.

Lemma openSetup_unlisted_debate_witness :
  let d := mkDebate 9 (lit "Dogs") in
  let listed := {| base := mkDebate 3 (lit "Cats"); selectionCount := VNum 4 0 |} in
  let text := 123 :: 34 :: lit "9" ++ 34 :: 58 :: lit "6" ++ [125] in
  let st := {| this := with_debates [listed] new_component;
               localStorage := {[ lit "debateCounts" := text ]};
               trace := [] |} in
  let st' := snd (openSetup d st) in
  debates (this st') = [listed]
  /\ selectedDebate (this st') = Some d
  /\ fst (read_counter 9 st') = Return (VNum 7 0).
Proof.
  intros d listed text st st'.
  assert (Hget : fst (getDebateCounts st) = Return (VObj [(lit "9", VNum 6 0)]))
    by reflexivity.
  assert (Ho : counter_map [(lit "9", VNum 6 0)]).
  { repeat constructor. by exists 6%Z. }
  assert (Hnot : Forall (fun e => id (base e) <> id d) (debates (this st))).
  { repeat constructor. simpl. lia. }
  assert (Hprev : (- 2 ^ 53 <= 6 /\ 6 + 1 <= 2 ^ 53)%Z) by lia.
  destruct (openSetup_unlisted_debate d st Hnot) as (H1 & H2 & _ & _ & _ & H3).
  split; [exact H1|]. split; [exact H2|].
  exact (proj2 (H3 _ Hget Ho) Hprev).
Defined.

(** ** Enriching the fetched debates *)

Lemma enrich_counter_map (o : list (str * value)) (data : list Debate) :
  counter_map o ->
  enrich (VObj o) data
  = Return (map (fun d => {| base := d;
                             selectionCount := VNum (stored_count o (id d)) 0 |})
                data).
Proof.
  intros Ho. induction data as [|d data IH]; [done|].
  cbn [enrich get_prop obind map]. rewrite IH. cbn [obind].
  by rewrite (counter_or_zero o (id d) Ho).
Qed.

Lemma ngOnInit_counter_map (data : list Debate) (st : State)
  (o : list (str * value)) :
  fst (getDebateCounts st) = Return (VObj o) -> counter_map o ->
  ngOnInit data st
  = (Return tt,
     {| this := with_debates
                  (map (fun d => {| base := d;
                                    selectionCount := VNum (stored_count o (id d)) 0 |})
                       data) (this st);
        localStorage := localStorage st; trace := trace st |}).
Proof.
  intros Hget Ho. apply getDebateCounts_eq in Hget.
  unfold ngOnInit, bind. rewrite Hget. unfold lift.
  by rewrite (enrich_counter_map o data Ho).
Qed.

Lemma getDebateCounts_rejected (st : State) (text : str) :
  localStorage st !! lit "debateCounts" = Some text -> text <> [] ->
  JSON_parse text = Throw SyntaxError ->
  getDebateCounts st = (Throw SyntaxError, st).
Proof. intros Hls Hne Hparse. by rewrite (getDebateCounts_text st text Hls Hne), Hparse. Qed.

Lemma ngOnInit_rejected (data : list Debate) (st : State) (text : str) :
  localStorage st !! lit "debateCounts" = Some text -> text <> [] ->
  JSON_parse text = Throw SyntaxError ->
  ngOnInit data st = (Throw SyntaxError, st).
Proof.
  intros Hls Hne Hparse. unfold ngOnInit, bind.
  by rewrite (getDebateCounts_rejected st text Hls Hne Hparse).
Qed.

Lemma openSetup_rejected (d : Debate) (st : State) (text : str) :
  localStorage st !! lit "debateCounts" = Some text -> text <> [] ->
  JSON_parse text = Throw SyntaxError ->
  openSetup d st
  = (Throw SyntaxError,
     {| this := select (Some d) (this st);
        localStorage := localStorage st; trace := trace st |}).
Proof.
  intros Hls Hne Hparse.
  unfold openSetup, bind, get_this, set_this, incrementDebateCount, bind.
  set (st0 := {| this := _; localStorage := localStorage st; trace := trace st |}).
  by rewrite (getDebateCounts_rejected st0 text Hls Hne Hparse).
Qed.

(** ** Stored text that is not JSON *)

(** C1, as stated, fails: with the text [corrupted] under
    ['debateCounts'], reading the counters raises a SyntaxError instead of
    giving the empty map, and both the enrichment and [openSetup] end with
    that error. *)
Lemma unparsable_counts_not_treated_as_absent :
  let st := {| this := new_component;
               localStorage := {[ lit "debateCounts" := lit "corrupted" ]};
               trace := [] |} in
  let d := mkDebate 3 (lit "X") in
  JSON_parse (lit "corrupted") = Throw SyntaxError
  /\ fst (getDebateCounts st) = Throw SyntaxError
  /\ fst (getDebateCounts st) <> Return (VObj [])
  /\ fst (ngOnInit [d] st) = Throw SyntaxError
  /\ fst (openSetup d st) = Throw SyntaxError.
Proof. repeat split; try reflexivity. discriminate. Qed.

(** C1, amended: a missing ['debateCounts'] key and the empty string are
    read as the empty map, so that the enrichment gives every debate the
    count 0 and [openSetup] returns normally; any other stored text that
    [JSON.parse] rejects makes [getDebateCounts] raise the SyntaxError,
    which ends the enrichment (state unchanged) and [openSetup] (the debate
    selected, nothing written). *)
Theorem getDebateCounts_absent_or_rejected (st : State) :
  (localStorage st !! lit "debateCounts" = None
   \/ localStorage st !! lit "debateCounts" = Some [] ->
   getDebateCounts st = (Return (VObj []), st)
   /\ (forall data,
         ngOnInit data st
         = (Return tt,
            {| this := with_debates
                         (map (fun d => {| base := d; selectionCount := VNum 0 0 |})
                              data) (this st);
               localStorage := localStorage st; trace := trace st |}))
   /\ (forall d, fst (openSetup d st) = Return tt
                 /\ fst (read_counter (id d) (snd (openSetup d st)))
                    = Return (VNum 1 0)))
  /\ (forall text,
        localStorage st !! lit "debateCounts" = Some text -> text <> [] ->
        JSON_parse text = Throw SyntaxError ->
        getDebateCounts st = (Throw SyntaxError, st)
        /\ (forall data, ngOnInit data st = (Throw SyntaxError, st))
        /\ (forall d,
              openSetup d st
              = (Throw SyntaxError,
                 {| this := select (Some d) (this st);
                    localStorage := localStorage st; trace := trace st |}))).
Proof.
  split.
  - intros Habs. pose proof (getDebateCounts_absent st Habs) as Hget.
    assert (Hget' : fst (getDebateCounts st) = Return (VObj [])) by by rewrite Hget.
    assert (Ho : counter_map []) by constructor.
    split; [done|]. split.
    + intros data. by rewrite (ngOnInit_counter_map data st [] Hget' Ho).
    + intros d. destruct (openSetup_run st [] Hget' Ho d) as (Hrun & _).
      split; [by rewrite Hrun|].
      by rewrite (read_counter_after_openSetup st [] Hget' Ho d).
  - intros text Hls Hne Hparse. split; [|split].
    + by apply (getDebateCounts_rejected st text).
    + intros data. by apply (ngOnInit_rejected data st text).
    + intros d. by apply (openSetup_rejected d st text).
Qed.

Lemma getDebateCounts_absent_or_rejected_witness :
  let absent := {| this := new_component; localStorage := ∅; trace := [] |} in
  let broken := {| this := new_component;
                   localStorage := {[ lit "debateCounts" := lit "corrupted" ]};
                   trace := [] |} in
  getDebateCounts absent = (Return (VObj []), absent)
  /\ getDebateCounts broken = (Throw SyntaxError, broken).
Proof.
  intros absent broken. split.
  - apply (proj1 (getDebateCounts_absent_or_rejected absent)). left. reflexivity.
  - apply (proj2 (getDebateCounts_absent_or_rejected broken) (lit "corrupted"));
      [reflexivity|discriminate|reflexivity].
Defined.

(** C5, as stated, fails for stored text that is not JSON: the fetched
    debate does not come out with the count 0, the subscriber ends with a
    SyntaxError and the list of the component stays empty. *)
Lemma unparsable_counts_leave_debates_unenriched :
  let st := {| this := new_component;
               localStorage := {[ lit "debateCounts" := lit "corrupted" ]};
               trace := [] |} in
  let d := mkDebate 3 (lit "X") in
  fst (ngOnInit [d] st) = Throw SyntaxError
  /\ debates (this (snd (ngOnInit [d] st))) = []
  /\ debates (this (snd (ngOnInit [d] st)))
     <> [ {| base := d; selectionCount := VNum 0 0 |} ].
Proof. repeat split; try reflexivity. discriminate. Qed.

(** C5, amended: when the stored counters are a counter map (the key may
    also be absent or hold the empty string: the empty map), the list of
    the component becomes the fetched list, each debate with the counter
    stored for its id, or 0 when none is stored; when the stored text is
    rejected by [JSON.parse], the subscriber ends with the SyntaxError and
    the list is left as it was. *)
Theorem ngOnInit_enriches_with_stored_counts (data : list Debate) (st : State) :
  (forall o,
     fst (getDebateCounts st) = Return (VObj o) -> counter_map o ->
     ngOnInit data st
     = (Return tt,
        {| this := with_debates
                     (map (fun d => {| base := d;
                                       selectionCount :=
                                         VNum (stored_count o (id d)) 0 |})
                          data) (this st);
           localStorage := localStorage st; trace := trace st |}))
  /\ (localStorage st !! lit "debateCounts" = None
      \/ localStorage st !! lit "debateCounts" = Some [] ->
      debates (this (snd (ngOnInit data st)))
      = map (fun d => {| base := d; selectionCount := VNum 0 0 |}) data)
  /\ (forall text,
        localStorage st !! lit "debateCounts" = Some text -> text <> [] ->
        JSON_parse text = Throw SyntaxError ->
        ngOnInit data st = (Throw SyntaxError, st)).
Proof.
  split; [|split].
  - intros o Hget Ho. by apply ngOnInit_counter_map.
  - intros Habs. pose proof (getDebateCounts_absent st Habs) as Hget.
    assert (Hget' : fst (getDebateCounts st) = Return (VObj [])) by by rewrite Hget.
    assert (Ho : counter_map []) by constructor.
    by rewrite (ngOnInit_counter_map data st [] Hget' Ho).
  - intros text. by apply ngOnInit_rejected.
Qed.

Lemma ngOnInit_enriches_with_stored_counts_witness :
  let cats := mkDebate 3 (lit "Cats") in
  let dogs := mkDebate 4 (lit "Dogs") in
  let o := [(lit "3", VNum 2 0)] in
  let st := {| this := new_component;
               localStorage := {[ lit "debateCounts" := serialize (VObj o) ]};
               trace := [] |} in
  debates (this (snd (ngOnInit [cats; dogs] st)))
  = [ {| base := cats; selectionCount := VNum 2 0 |};
      {| base := dogs; selectionCount := VNum 0 0 |} ].
Proof.
  intros cats dogs o st.
  assert (Hget : fst (getDebateCounts st) = Return (VObj o)) by reflexivity.
  assert (Ho : counter_map o) by (repeat constructor; by exists 2%Z).
  by rewrite (proj1 (ngOnInit_enriches_with_stored_counts [cats; dogs] st) o Hget Ho).
Defined.

(** * Further properties of the component *)

(** ** Decimal text of the ids *)

Lemma uint_chars_inj (u u' : Decimal.uint) :
  uint_chars u = uint_chars u' -> u = u'.
Proof.
  revert u'. induction u; intros []; simpl; intros [=]; f_equal; auto.
Qed.

Lemma uint_chars_digits (u : Decimal.uint) :
  Forall (fun c => 48 <= c <= 57) (uint_chars u).
Proof. induction u; simpl; constructor; (lia || done). Qed.

(** The text of an id is made of digits and of the minus sign. *)
Lemma Z_to_str_chars (z : Z) :
  Forall (fun c => c = 45 \/ 48 <= c <= 57) (Z_to_str z).
Proof.
  assert (H : forall n, Forall (fun c => c = 45 \/ 48 <= c <= 57) (N_to_str n)).
  { intros n. eapply Forall_impl; [apply uint_chars_digits|]. simpl. auto. }
  destruct z; simpl; [apply H|apply H|]. constructor; [auto|apply H].
Qed.

(** Different ids have different texts, hence different property keys. *)
Lemma Z_to_str_inj (z z' : Z) : Z_to_str z = Z_to_str z' -> z = z'.
Proof.
  assert (Hn : forall n n', N_to_str n = N_to_str n' -> n = n').
  { intros n n' E. by apply DecimalN.Unsigned.to_uint_inj, uint_chars_inj. }
  assert (Hneg : forall n p, N_to_str n <> 45 :: N_to_str (Npos p)).
  { intros n p E. destruct (N_to_str_head n) as (c & r & E' & Hc).
    rewrite E' in E. inversion E. lia. }
  destruct z as [|p|p], z' as [|q|q]; cbn [Z_to_str Z.to_N]; intros E;
    try reflexivity;
    try (apply Hn in E; congruence);
    try (exfalso; exact (Hneg _ _ E));
    try (exfalso; symmetry in E; exact (Hneg _ _ E)).
  inversion E as [E']. apply Hn in E'. congruence.
Qed.

(** ** [openSetup] in any state *)

Lemma getDebateCounts_fst_lookup (st st' : State) :
  localStorage st !! lit "debateCounts" = localStorage st' !! lit "debateCounts" ->
  fst (getDebateCounts st) = fst (getDebateCounts st').
Proof.
  intros H. unfold getDebateCounts, bind, localStorage_getItem. simpl.
  rewrite H. destruct (localStorage st' !! lit "debateCounts") as [text|]; [|done].
  by destruct (str_truthy text).
Qed.

(** A container that took a property gives it back without an error. *)
Lemma set_prop_get_prop (o : value) (debateId : Z) (x o' : value) :
  set_prop o debateId x = Return o' ->
  exists v, get_prop o' debateId = Return v.
Proof.
  destruct o; simpl; try discriminate.
  - destruct (is_index debateId) eqn:E.
    + destruct (_ <? _)%nat; intros [= <-]; simpl; rewrite E; eauto.
    + intros [= <-]; simpl; rewrite E; eauto.
  - intros [= <-]. simpl. eauto.
Qed.

Lemma reflect_count_fields (debateId : Z) (cur : value) (c : Component) :
  viewMode (reflect_count debateId cur c) = viewMode c
  /\ selectedDebate (reflect_count debateId cur c) = selectedDebate c
  /\ debaterA (reflect_count debateId cur c) = debaterA c
  /\ debaterB (reflect_count debateId cur c) = debaterB c
  /\ listed_ids (reflect_count debateId cur c) = listed_ids c.
Proof.
  unfold reflect_count, listed_ids.
  destruct (list_find _ (debates c)) as [[i e]|] eqn:E; [|done].
  repeat split. cbn [with_debates debates].
  apply list_find_Some in E as (Hi & _).
  rewrite list_fmap_insert. cbn [base]. apply list_insert_id.
  by rewrite list_lookup_fmap, Hi.
Qed.

(** [incrementDebateCount] either raises, the state untouched, or makes
    one write, under ['debateCounts']. *)
Lemma incrementDebateCount_cases (debateId : Z) (st : State) :
  (exists e, incrementDebateCount debateId st = (Throw e, st))
  \/ (exists text cur,
        incrementDebateCount debateId st
        = (Return tt,
           {| this := reflect_count debateId cur (this st);
              localStorage := <[lit "debateCounts" := text]> (localStorage st);
              trace := trace st ++ [SetItem (lit "debateCounts") text] |})).
Proof.
  unfold incrementDebateCount, bind.
  pose proof (getDebateCounts_state st) as Hs.
  destruct (getDebateCounts st) as [[counts|e] s']; simpl in Hs; subst s';
    [|left; eauto].
  unfold lift. destruct (get_prop counts debateId) as [old|e]; [|left; eauto].
  destruct (js_add_int (js_or old (VNum 0 0)) 1) as [new|e]; [|left; eauto].
  destruct (set_prop counts debateId new) as [counts'|e] eqn:Hset; [|left; eauto].
  destruct (set_prop_get_prop _ _ _ _ Hset) as (cur & Hcur).
  right. exists (default (lit "undefined") (JSON_stringify counts')), cur.
  cbn [localStorage_setItem get_this this]. unfold reflect_count.
  destruct (list_find _ (debates (this st))) as [[i debate]|]; [|done].
  by rewrite Hcur.
Qed.

Lemma openSetup_cases (d : Debate) (st : State) :
  (exists e,
     openSetup d st
     = (Throw e, {| this := select (Some d) (this st);
                    localStorage := localStorage st; trace := trace st |}))
  \/ (exists text cur,
        openSetup d st
        = (Return tt,
           {| this := reflect_count (id d) cur (select (Some d) (this st));
              localStorage := <[lit "debateCounts" := text]> (localStorage st);
              trace := trace st ++ [SetItem (lit "debateCounts") text] |})).
Proof.
  unfold openSetup, bind, get_this, set_this.
  set (st0 := {| this := _; localStorage := localStorage st; trace := trace st |}).
  destruct (incrementDebateCount_cases (id d) st0) as [(e & ->)|(text & cur & ->)];
    [left|right]; eauto.
Qed.

(** X1: in any state, [openSetup(d)] ends in one of two ways.  Either it
    raises an exception: then nothing was written, nothing was added to
    the trace, the list of debates is as before, and [d] is selected all
    the same (the dialog is open although the count was not taken).  Or
    it returns: then [d] is selected, the trace has one more entry, a
    [setItem] of ['debateCounts'], every other key of the storage is as
    before, and the ids of the listed debates are as before.  It never
    navigates and never changes the view mode or the names. *)
Theorem openSetup_outcomes (d : Debate) (st : State) :
  let st' := snd (openSetup d st) in
  selectedDebate (this st') = Some d
  /\ viewMode (this st') = viewMode (this st)
  /\ debaterA (this st') = debaterA (this st)
  /\ debaterB (this st') = debaterB (this st)
  /\ listed_ids (this st') = listed_ids (this st)
  /\ (forall k, k <> lit "debateCounts" ->
                localStorage st' !! k = localStorage st !! k)
  /\ ((exists e, fst (openSetup d st) = Throw e
                 /\ localStorage st' = localStorage st
                 /\ trace st' = trace st
                 /\ debates (this st') = debates (this st))
      \/ (exists text, fst (openSetup d st) = Return tt
                       /\ localStorage st' !! lit "debateCounts" = Some text
                       /\ trace st' = trace st ++ [SetItem (lit "debateCounts") text])).
Proof.
  intros st'. unfold st'.
  destruct (openSetup_cases d st) as [(e & ->)|(text & cur & ->)]; cbn [fst snd this
    localStorage trace].
  - repeat (split; [done|]). left. eauto.
  - destruct (reflect_count_fields (id d) cur (select (Some d) (this st)))
      as (H1 & H2 & H3 & H4 & H5).
    rewrite H1, H2, H3, H4, H5.
    repeat (split; [done|]).
    split; [intros k Hk; by rewrite lookup_insert_ne|].
    right. exists text. by rewrite lookup_insert_eq.
Qed.

(** ** [openSetup] on a counter map: the list and the other counters *)

Section CounterMapState.

Context (st : State) (o : list (str * value)).
Hypothesis Hget : fst (getDebateCounts st) = Return (VObj o).
Hypothesis Ho : counter_map o.

Lemma read_counter_counter_map (debateId : Z) :
  fst (read_counter debateId st)
  = Return (default VUndefined (obj_get (Z_to_str debateId) o)).
Proof.
  unfold read_counter, bind. by rewrite (getDebateCounts_eq st _ Hget).
Qed.

(** Every counter as it is read after [openSetup(d)]. *)
Lemma read_counter_openSetup (d : Debate) (debateId : Z) :
  fst (read_counter debateId (snd (openSetup d st)))
  = Return (default VUndefined
              (obj_get (Z_to_str debateId)
                 (obj_set (Z_to_str (id d)) (next_count o (id d)) o))).
Proof.
  destruct (openSetup_run st o Hget Ho d) as (Hrun & Hget' & _ & _).
  rewrite Hrun. cbn [snd]. unfold read_counter, bind. rewrite Hget'.
  unfold lift. cbn [fst get_prop].
  rewrite obj_get_build; [by destruct (obj_get _ _)|].
  apply obj_set_NoDup, (stored_keys_NoDup st o Hget).
Qed.

Lemma stored_count_openSetup (d : Debate) (debateId : Z) :
  stored_count
    (obj_build (obj_set (Z_to_str (id d)) (next_count o (id d)) o) [])
    debateId
  = if decide (id d = debateId) then round_int (stored_count o debateId + 1)
    else stored_count o debateId.
Proof.
  rewrite stored_count_build
    by apply obj_set_NoDup, (stored_keys_NoDup st o Hget).
  destruct (decide (id d = debateId)) as [<-|Hne].
  - unfold next_count. by rewrite stored_count_set.
  - unfold stored_count. rewrite obj_get_set, decide_False; [done|].
    intros E. by apply Z_to_str_inj in E.
Qed.

Lemma debates_after_openSetup (d : Debate) :
  debates (this (snd (openSetup d st)))
  = debates (reflect_count (id d) (next_count o (id d))
               (select (Some d) (this st))).
Proof. by destruct (openSetup_run st o Hget Ho d) as (-> & _). Qed.

End CounterMapState.

(** X2: when the stored counters are a counter map in which the counter
    for [d.id] (0 when there is none) is an integer from [-2^53] to
    [2^53 - 1], and the list has an entry for [d.id], [openSetup(d)] puts
    the new count, the previous one plus 1, which is also the one it has
    just stored, into the first such entry; every other entry of the list,
    a later entry with the same id included, is as before. *)
Theorem openSetup_updates_first_listed (d : Debate) (st : State)
  (o : list (str * value)) (i : nat) (e : EnrichedDebate) :
  fst (getDebateCounts st) = Return (VObj o) -> counter_map o ->
  (- 2 ^ 53 <= stored_count o (id d) /\ stored_count o (id d) + 1 <= 2 ^ 53)%Z ->
  debates (this st) !! i = Some e -> id (base e) = id d ->
  (forall j e', debates (this st) !! j = Some e' -> (j < i)%nat ->
                id (base e') <> id d) ->
  let st' := snd (openSetup d st) in
  let new := VNum (stored_count o (id d) + 1) 0 in
  debates (this st')
  = <[i := {| base := base e; selectionCount := new |}]> (debates (this st))
  /\ fst (read_counter (id d) st') = Return new
  /\ (forall j, j <> i -> debates (this st') !! j = debates (this st) !! j)
  /\ length (debates (this st')) = length (debates (this st)).
Proof.
  intros Hget Ho Hprev Hi Hid Hfirst st' new.
  assert (Hnew : next_count o (id d) = new).
  { apply next_count_exact. unfold exact_int. lia. }
  assert (Hfind : list_find (fun x => id (base x) = id d) (debates (this st))
                  = Some (i, e)) by by apply list_find_Some.
  assert (Hds : debates (this st')
                = <[i := {| base := base e; selectionCount := new |}]>
                    (debates (this st))).
  { unfold st'. rewrite (debates_after_openSetup st o Hget Ho d), Hnew.
    unfold reflect_count. cbn [select debates]. by rewrite Hfind. }
  split; [exact Hds|]. split.
  - unfold st'. rewrite (read_counter_openSetup st o Hget Ho d (id d)), Hnew.
    by rewrite obj_get_set, decide_True.
  - rewrite Hds. split.
    + intros j Hj. by rewrite list_lookup_insert_ne.
    + apply length_insert.
Qed.

Lemma openSetup_updates_first_listed_witness :
  let d := mkDebate 3 (lit "Cats") in
  let first := {| base := d; selectionCount := VNum 0 0 |} in
  let second := {| base := mkDebate 3 (lit "Cats again"); selectionCount := VNum 0 0 |} in
  let st := {| this := with_debates [first; second] new_component;
               localStorage := ∅; trace := [] |} in
  debates (this (snd (openSetup d st)))
  = [ {| base := d; selectionCount := VNum 1 0 |}; second ].
Proof.
  intros d first second st.
  assert (Hget : fst (getDebateCounts st) = Return (VObj [])) by reflexivity.
  assert (Ho : counter_map []) by constructor.
  assert (Hprev : (- 2 ^ 53 <= stored_count [] (id d)
                   /\ stored_count [] (id d) + 1 <= 2 ^ 53)%Z)
    by (vm_compute; split; discriminate).
  assert (Hi : debates (this st) !! 0%nat = Some first) by reflexivity.
  assert (Hid : id (base first) = id d) by reflexivity.
  assert (Hfirst : forall j e', debates (this st) !! j = Some e' -> (j < 0)%nat ->
                                id (base e') <> id d) by (intros; lia).
  exact (proj1 (openSetup_updates_first_listed d st [] 0 first Hget Ho Hprev Hi Hid
                  Hfirst)).
Defined.

(** X3: when the stored counters are a counter map, [openSetup(d)] leaves
    the counter of every other debate as it was: what is read for an id
    other than [d.id] after the call is what was read before it. *)
Theorem openSetup_keeps_other_counters (d : Debate) (st : State)
  (o : list (str * value)) (debateId : Z) :
  fst (getDebateCounts st) = Return (VObj o) -> counter_map o ->
  debateId <> id d ->
  fst (read_counter debateId (snd (openSetup d st)))
  = fst (read_counter debateId st).
Proof.
  intros Hget Ho Hne.
  rewrite (read_counter_openSetup st o Hget Ho d debateId).
  rewrite (read_counter_counter_map st o Hget debateId).
  rewrite obj_get_set, decide_False; [done|].
  intros E. apply Z_to_str_inj in E. congruence.
Qed.

Lemma openSetup_keeps_other_counters_witness :
  let o := [(lit "3", VNum 2 0); (lit "30", VNum 5 0)] in
  let st := {| this := new_component;
               localStorage := {[ lit "debateCounts" := serialize (VObj o) ]};
               trace := [] |} in
  let st' := snd (openSetup (mkDebate 3 (lit "Cats")) st) in
  fst (read_counter 30 st') = Return (VNum 5 0)
  /\ fst (read_counter 3 st') = Return (VNum 3 0).
Proof.
  intros o st st'.
  assert (Hget : fst (getDebateCounts st) = Return (VObj o)) by reflexivity.
  assert (Ho : counter_map o).
  { repeat constructor; [by exists 2%Z|by exists 5%Z]. }
  assert (Hne : 30%Z <> id (mkDebate 3 (lit "Cats"))) by (simpl; lia).
  split; [|reflexivity].
  unfold st'.
  rewrite (openSetup_keeps_other_counters (mkDebate 3 (lit "Cats")) st o 30 Hget Ho Hne).
  reflexivity.
Defined.

(** ** The subscriber in any state *)

Lemma enrich_bases (counts : value) (data : list Debate) (l : list EnrichedDebate) :
  enrich counts data = Return l -> map base l = data.
Proof.
  revert l. induction data as [|d data IH]; intros l; cbn [enrich].
  - by intros [= <-].
  - destruct (get_prop counts (id d)) as [c|e]; [|done]. cbn [obind].
    destruct (enrich counts data) as [rest|e]; [|done]. cbn [obind].
    intros [= <-]. cbn [map base]. by rewrite (IH rest).
Qed.

(** X4: in any state, the subscriber of [ngOnInit] writes nothing and
    asks nothing of the router, and leaves the view mode, the selection
    and the names alone.  When it raises an exception the state is the
    one it started from; when it returns, the list of the component is
    the delivered list, same debates in the same order, whatever the list
    was before. *)
Theorem ngOnInit_outcomes (data : list Debate) (st : State) :
  let st' := snd (ngOnInit data st) in
  localStorage st' = localStorage st
  /\ trace st' = trace st
  /\ viewMode (this st') = viewMode (this st)
  /\ selectedDebate (this st') = selectedDebate (this st)
  /\ debaterA (this st') = debaterA (this st)
  /\ debaterB (this st') = debaterB (this st)
  /\ ((exists e, fst (ngOnInit data st) = Throw e /\ st' = st)
      \/ (fst (ngOnInit data st) = Return tt
          /\ map base (debates (this st')) = data)).
Proof.
  intros st'. unfold st', ngOnInit, bind.
  pose proof (getDebateCounts_state st) as Hs.
  destruct (getDebateCounts st) as [[counts|e] s']; simpl in Hs; subst s'.
  - unfold lift. destruct (enrich counts data) as [l|e] eqn:E.
    + cbn. repeat (split; [done|]). right. split; [done|].
      by apply (enrich_bases counts).
    + cbn. repeat (split; [done|]). left. eauto.
  - cbn. repeat (split; [done|]). left. eauto.
Qed.

(** ** [startDebate] in any state *)

Lemma session_keys_not_counts : lit "debateCounts" ∉ session_keys.
Proof.
  unfold session_keys. rewrite !not_elem_of_cons.
  repeat split; [discriminate..|apply not_elem_of_nil].
Qed.

Lemma startDebate_cases (st : State) :
  startDebate st = (Return tt, st)
  \/ (exists sel,
        selectedDebate (this st) = Some sel
        /\ ~ blank (debaterA (this st)) /\ ~ blank (debaterB (this st))
        /\ startDebate st
           = (Return tt,
              {| this := this st;
                 localStorage :=
                   <[lit "currentSessionId"
                     := session_id sel (debaterA (this st)) (debaterB (this st))]>
                     (<[lit "debateTopic" := topic sel]>
                        (<[lit "username" := debaterA (this st)]>
                           (<[lit "debaterB" := debaterB (this st)]>
                              (<[lit "debaterA" := debaterA (this st)]>
                                 (localStorage st)))));
                 trace := trace st
                            ++ start_events sel (debaterA (this st))
                                 (debaterB (this st)) |})).
Proof.
  destruct (selectedDebate (this st)) as [sel|] eqn:Hsel.
  - destruct (decide (blank (debaterA (this st)))) as [Ha|Ha].
    { left. unfold startDebate, bind, get_this.
      by rewrite Hsel, (blank_not_truthy _ Ha). }
    destruct (decide (blank (debaterB (this st)))) as [Hb|Hb].
    { left. unfold startDebate, bind, get_this.
      by rewrite Hsel, (blank_not_truthy _ Hb), orb_true_r. }
    right. exists sel. repeat (split; [done|]).
    apply (startDebate_run st sel Hsel Ha Hb).
  - left. unfold startDebate, bind, get_this. by rewrite Hsel.
Qed.

(** X5: in any state, [startDebate()] returns without an exception and
    leaves the component as it is: the selection is not cleared, the list
    and the view mode are untouched.  It writes no storage key other than
    its five, so the counters under ['debateCounts'] are as before, and
    its effects are none at all or the five writes followed by the
    navigation. *)
Theorem startDebate_outcomes (st : State) :
  let st' := snd (startDebate st) in
  fst (startDebate st) = Return tt
  /\ this st' = this st
  /\ (forall k, k ∉ session_keys -> localStorage st' !! k = localStorage st !! k)
  /\ localStorage st' !! lit "debateCounts" = localStorage st !! lit "debateCounts"
  /\ (trace st' = trace st
      \/ exists sel, selectedDebate (this st) = Some sel
                     /\ trace st'
                        = trace st ++ start_events sel (debaterA (this st))
                                        (debaterB (this st))).
Proof.
  intros st'.
  assert (Hframe : forall k, k ∉ session_keys ->
                     localStorage st' !! k = localStorage st !! k).
  { intros k Hk. unfold st'.
    destruct (startDebate_cases st) as [->|(sel & _ & _ & _ & ->)]; [done|].
    cbn [snd localStorage]. unfold session_keys in Hk.
    rewrite !not_elem_of_cons in Hk. destruct Hk as (? & ? & ? & ? & ? & _).
    by rewrite !lookup_insert_ne. }
  split; [|split; [|split; [exact Hframe|split]]].
  - by destruct (startDebate_cases st) as [->|(sel & _ & _ & _ & ->)].
  - unfold st'. by destruct (startDebate_cases st) as [->|(sel & _ & _ & _ & ->)].
  - apply Hframe, session_keys_not_counts.
  - unfold st'. destruct (startDebate_cases st) as [->|(sel & Hsel & _ & _ & ->)];
      [by left|right; eauto].
Qed.

Lemma not_blank_iff (s : str) :
  ~ blank s <-> exists c, c ∈ s /\ is_white_space c = false.
Proof.
  unfold blank. rewrite trim_nil_iff. split.
  - intros H. apply not_Forall_Exists in H; [|intros c; apply _].
    apply Exists_exists in H as (c & Hc & Hws). exists c. split; [done|].
    simpl in Hws. by destruct (is_white_space c).
  - intros (c & Hc & Hws) H. rewrite Forall_forall in H.
    specialize (H c Hc). congruence.
Qed.

(** X6: the guard of [startDebate()], on the characters: the call has an
    effect exactly when a debate is selected and each of the two names
    has at least one code unit that is not white space. *)
Theorem startDebate_effect_iff (st : State) :
  trace (snd (startDebate st)) <> trace st
  <-> is_Some (selectedDebate (this st))
      /\ (exists c, c ∈ debaterA (this st) /\ is_white_space c = false)
      /\ (exists c, c ∈ debaterB (this st) /\ is_white_space c = false).
Proof.
  rewrite <- !not_blank_iff. split.
  - intros Htr.
    destruct (startDebate_cases st) as [E|(sel & Hsel & Ha & Hb & _)].
    + by rewrite E in Htr.
    + by rewrite Hsel.
  - intros ([sel Hsel] & Ha & Hb).
    rewrite (startDebate_run st sel Hsel Ha Hb). cbn [snd trace].
    intros E. apply (f_equal length) in E. rewrite length_app in E.
    simpl in E. lia.
Qed.

(** X7: [startDebate()] called again right after itself changes nothing
    in the storage and nothing in the component; only the trace grows,
    by the same effects as the first time (the navigation is asked for
    again). *)
Theorem startDebate_twice (st : State) :
  let st1 := snd (startDebate st) in
  let st2 := snd (startDebate st1) in
  localStorage st2 = localStorage st1
  /\ this st2 = this st
  /\ exists effects, trace st1 = trace st ++ effects
                     /\ trace st2 = trace st1 ++ effects.
Proof.
  intros st1 st2. unfold st2, st1.
  destruct (startDebate_cases st) as [E|(sel & Hsel & Ha & Hb & E)]; rewrite E;
    cbn [snd].
  - rewrite E. cbn [snd]. repeat split. exists []. by rewrite !app_nil_r.
  - set (st' := {| this := this st; localStorage := _; trace := _ |}).
    rewrite (startDebate_run st' sel Hsel Ha Hb). subst st'.
    cbn [snd this localStorage trace].
    split; [|split; [done|]].
    + apply map_eq. intros k. rewrite !lookup_insert.
      repeat case_decide; done.
    + exists (start_events sel (debaterA (this st)) (debaterB (this st))). done.
Qed.

(** ** The session identifier *)

Lemma app_separator_inj (c : N) (l1 l2 r1 r2 : str) :
  c ∉ l1 -> c ∉ l2 -> l1 ++ c :: r1 = l2 ++ c :: r2 -> l1 = l2 /\ r1 = r2.
Proof.
  revert l2. induction l1 as [|x l1 IH]; intros [|y l2] H1 H2 E; simpl in E.
  - by inversion E.
  - inversion E; subst. exfalso. apply H2. by left.
  - inversion E; subst. exfalso. apply H1. by left.
  - inversion E; subst. rewrite not_elem_of_cons in H1, H2.
    destruct (IH l2) as [-> ->]; tauto.
Qed.

Lemma Z_to_str_no_underscore (z : Z) : 95 ∉ Z_to_str z.
Proof.
  intros H. pose proof (Z_to_str_chars z) as Hc. rewrite Forall_forall in Hc.
  specialize (Hc 95 H). lia.
Qed.

Lemma session_id_inj_debate (sel sel' : Debate) (a b a' b' : str) :
  session_id sel a b = session_id sel' a' b' -> id sel = id sel'.
Proof.
  unfold session_id. change (lit "_") with [95]. cbn [app]. intros E.
  apply app_separator_inj in E as [E _]; try apply Z_to_str_no_underscore.
  by apply Z_to_str_inj.
Qed.

Lemma stored_session_id (c : Component) (sel : Debate) (a b : str)
  (ls : gmap str str) (tr : list Event) :
  ~ blank a -> ~ blank b ->
  localStorage (snd (startDebate (setup_state c sel a b ls tr)))
    !! lit "currentSessionId"
  = Some (session_id sel a b).
Proof.
  intros Ha Hb.
  rewrite (startDebate_run (setup_state c sel a b ls tr) sel eq_refl Ha Hb).
  cbn [snd localStorage]. by rewrite lookup_insert_eq.
Qed.

(** X8: the session identifier tells the debate: started for debates
    with different ids, whatever the names, [startDebate()] stores
    different values under ['currentSessionId']. *)
Theorem startDebate_session_id_tells_debate
  (c c' : Component) (sel sel' : Debate) (a b a' b' : str)
  (ls ls' : gmap str str) (tr tr' : list Event) :
  ~ blank a -> ~ blank b -> ~ blank a' -> ~ blank b' ->
  id sel <> id sel' ->
  localStorage (snd (startDebate (setup_state c sel a b ls tr)))
    !! lit "currentSessionId"
  <> localStorage (snd (startDebate (setup_state c' sel' a' b' ls' tr')))
       !! lit "currentSessionId".
Proof.
  intros Ha Hb Ha' Hb' Hne.
  rewrite !stored_session_id by done. intros [= E].
  by apply session_id_inj_debate in E.
Qed.

Lemma startDebate_session_id_tells_debate_witness :
  let stored sel a b :=
    localStorage (snd (startDebate (setup_state new_component sel a b ∅ [])))
      !! lit "currentSessionId" in
  stored (mkDebate 1 (lit "Cats")) (lit "2") (lit "x")
  <> stored (mkDebate 12 (lit "Dogs")) (lit "x") (lit "y").
Proof.
  intros stored.
  assert (H2 : ~ blank (lit "2")) by (vm_compute; discriminate).
  assert (Hx : ~ blank (lit "x")) by (vm_compute; discriminate).
  assert (Hy : ~ blank (lit "y")) by (vm_compute; discriminate).
  assert (Hne : id (mkDebate 1 (lit "Cats")) <> id (mkDebate 12 (lit "Dogs")))
    by (simpl; lia).
  exact (startDebate_session_id_tells_debate new_component new_component
           (mkDebate 1 (lit "Cats")) (mkDebate 12 (lit "Dogs"))
           (lit "2") (lit "x") (lit "x") (lit "y") ∅ ∅ [] [] H2 Hx Hx Hy Hne).
Defined.

Lemma underscore_not_blank (x y : str) : ~ blank (x ++ lit "_" ++ y).
Proof.
  apply not_blank_iff. exists 95. split; [|reflexivity].
  apply elem_of_app. right. by left.
Qed.

(** X9: the session identifier does not tell the names when a name holds
    the separator: the pair [x], [y_z] and the pair [x_y], [z], each in
    the order in which [sort()] leaves it, give the same
    ['currentSessionId'] for the same debate, and for [x] other than [z]
    they are two different pairs of names. *)
Theorem startDebate_session_id_collision
  (c : Component) (sel : Debate) (x y z : str) (ls : gmap str str)
  (tr : list Event) :
  ~ blank x -> ~ blank z ->
  str_ltb (y ++ lit "_" ++ z) x = false ->
  str_ltb z (x ++ lit "_" ++ y) = false ->
  x <> z ->
  let stored a b :=
    localStorage (snd (startDebate (setup_state c sel a b ls tr)))
      !! lit "currentSessionId" in
  stored x (y ++ lit "_" ++ z) = stored (x ++ lit "_" ++ y) z
  /\ (x, y ++ lit "_" ++ z) <> (x ++ lit "_" ++ y, z)
  /\ (x, y ++ lit "_" ++ z) <> (z, x ++ lit "_" ++ y).
Proof.
  intros Hx Hz H1 H2 Hne stored. split; [|split].
  - unfold stored.
    rewrite !stored_session_id by (done || apply underscore_not_blank).
    unfold session_id, array_sort. cbn [foldr sort_insert].
    rewrite H1, H2. cbn [array_join]. by rewrite <- !app_assoc.
  - intros [= E _]. apply (f_equal length) in E. rewrite length_app in E.
    simpl in E. lia.
  - by intros [= E _].
Qed.

Lemma startDebate_session_id_collision_witness :
  let stored a b :=
    localStorage
      (snd (startDebate (setup_state new_component (mkDebate 5 (lit "Cats")) a b ∅ [])))
      !! lit "currentSessionId" in
  stored (lit "ann") (lit "bob_cy") = stored (lit "ann_bob") (lit "cy")
  /\ stored (lit "ann") (lit "bob_cy") = Some (lit "5_ann_bob_cy").
Proof.
  intros stored.
  assert (Hx : ~ blank (lit "ann")) by (vm_compute; discriminate).
  assert (Hz : ~ blank (lit "cy")) by (vm_compute; discriminate).
  assert (H1 : str_ltb (lit "bob" ++ lit "_" ++ lit "cy") (lit "ann") = false)
    by reflexivity.
  assert (H2 : str_ltb (lit "cy") (lit "ann" ++ lit "_" ++ lit "bob") = false)
    by reflexivity.
  assert (Hne : lit "ann" <> lit "cy") by discriminate.
  split; [|reflexivity].
  exact (proj1 (startDebate_session_id_collision new_component
                  (mkDebate 5 (lit "Cats")) (lit "ann") (lit "bob") (lit "cy")
                  ∅ [] Hx Hz H1 H2 Hne)).
Defined.

(** ** Sequences of calls on a counter map *)

Lemma opens_cons (debateId : Z) (c : Call) (l : list Call) :
  opens debateId (c :: l) = (opens debateId [c] + opens debateId l)%Z.
Proof. destruct c; simpl; lia. Qed.

Lemma opens_nonneg (debateId : Z) (l : list Call) : (0 <= opens debateId l)%Z.
Proof.
  induction l as [|c l IH]; simpl; [lia|].
  destruct c; try done. destruct (decide _); lia.
Qed.

Lemma selection_after_cons (c : Call) (l : list Call) (sel : option Debate) :
  selection_after (c :: l) sel = selection_after l (selection_after [c] sel).
Proof. by destruct c. Qed.

Lemma exact_counter_map_get (o : list (str * value)) (debateId : Z) :
  exact_counter_map o -> exact_int (stored_count o debateId).
Proof.
  intros Ho. unfold stored_count.
  assert (H0 : exact_int 0) by (unfold exact_int; lia).
  generalize (Z_to_str debateId). intros k.
  induction Ho as [|[k1 v1] o (n & Hv & Hn) Ho IH]; simpl; [done|].
  simpl in Hv. subst v1. by destruct (str_eqb k1 k).
Qed.

Lemma exact_counter_map_counter_map (o : list (str * value)) :
  exact_counter_map o -> counter_map o.
Proof.
  intros He. eapply Forall_impl; [exact He|].
  intros kv (n & Hn & _). by exists n.
Qed.

Section OneCall.

Context (st : State) (o : list (str * value)).
Hypothesis Hget : fst (getDebateCounts st) = Return (VObj o).
Hypothesis Ho : counter_map o.

(** The list after [openSetup(d)] shows the new counters, if it showed
    the old ones and lists no id twice. *)
Lemma shows_counts_openSetup (d : Debate) :
  shows_counts o (this st) -> NoDup (listed_ids (this st)) ->
  shows_counts
    (obj_build (obj_set (Z_to_str (id d)) (next_count o (id d)) o) [])
    (reflect_count (id d) (next_count o (id d)) (select (Some d) (this st))).
Proof.
  intros Hshow Hnd. unfold shows_counts in *.
  set (o' := obj_build _ []).
  assert (Hcount : forall x, stored_count o' x
            = if decide (id d = x) then round_int (stored_count o x + 1)
              else stored_count o x).
  { intros x. apply (stored_count_openSetup st o Hget). }
  unfold reflect_count. cbn [select debates].
  destruct (list_find _ (debates (this st))) as [[i e]|] eqn:Hfind.
  - apply list_find_Some in Hfind as (Hi & Hid & _).
    cbn [with_debates debates]. apply Forall_lookup. intros j x Hj.
    destruct (decide (j = i)) as [->|Hji].
    + rewrite list_lookup_insert_eq in Hj by (by eapply lookup_lt_Some).
      inversion Hj; subst x. cbn [selectionCount base].
      by rewrite Hcount, Hid, decide_True.
    + rewrite list_lookup_insert_ne in Hj by done.
      rewrite Forall_lookup in Hshow. rewrite (Hshow j x Hj), Hcount.
      rewrite decide_False; [done|].
      intros E. apply Hji.
      apply (NoDup_lookup (listed_ids (this st)) j i (id d) Hnd).
      * unfold listed_ids. by rewrite list_lookup_fmap, Hj, E.
      * unfold listed_ids. by rewrite list_lookup_fmap, Hi, <- Hid.
  - apply list_find_None in Hfind. rewrite Forall_forall in Hfind, Hshow.
    apply Forall_forall. intros x Hx. rewrite (Hshow x Hx), Hcount.
    rewrite decide_False; [done|].
    intros E. by apply (Hfind x Hx).
Qed.

(** One call: it returns, the stored counters are a counter map again, and
    the selection and the list follow; counters that are integers up to
    [2^53] in magnitude, and stay so, have one more for the debate whose
    setup the call opened. *)
Lemma call_counter_map (c : Call) :
  let st' := snd (call c st) in
  fst (call c st) = Return tt
  /\ exists o',
       fst (getDebateCounts st') = Return (VObj o') /\ counter_map o'
       /\ (exact_counter_map o ->
           (forall i, (stored_count o i + opens i [c] <= 2 ^ 53)%Z) ->
           exact_counter_map o'
           /\ forall i, stored_count o' i = (stored_count o i + opens i [c])%Z)
       /\ selectedDebate (this st') = selection_after [c] (selectedDebate (this st))
       /\ (shows_counts o (this st) -> NoDup (listed_ids (this st)) ->
           distinct_fetch c ->
           shows_counts o' (this st') /\ NoDup (listed_ids (this st'))).
Proof.
  assert (Hsame : exact_counter_map o ->
            exact_counter_map o
            /\ forall i, stored_count o i = (stored_count o i + 0)%Z)
    by (intros; split; [done|intros; lia]).
  destruct c as [data|mode|d| |]; cbn [call opens selection_after].
  - rewrite (ngOnInit_counter_map data st o Hget Ho). cbn [fst snd].
    split; [done|]. exists o.
    split; [by rewrite <- Hget; apply getDebateCounts_fst_lookup|].
    split; [done|]. split; [by intros He _; apply Hsame|]. split; [done|].
    intros _ _ Hnd. cbn [this with_debates]. split.
    + unfold shows_counts. cbn [debates with_debates]. apply Forall_forall.
      intros e He. apply list_elem_of_fmap in He as (x & -> & _). done.
    + unfold listed_ids. cbn [debates with_debates]. rewrite List.map_map.
      exact Hnd.
  - split; [done|]. exists o.
    split; [by rewrite <- Hget; apply getDebateCounts_fst_lookup|].
    split; [done|]. split; [by intros He _; apply Hsame|]. split; [done|].
    intros Hshow Hnd _. by split.
  - destruct (openSetup_run st o Hget Ho d) as (Hrun & Hget' & Ho' & _).
    rewrite Hrun. cbn [fst snd]. split; [done|].
    eexists. split; [by rewrite Hget'|]. split; [exact Ho'|]. split; [|split].
    + intros He Hle.
      assert (Hd : exact_int (stored_count o (id d) + 1)).
      { pose proof (exact_counter_map_get o (id d) He) as Hlo.
        pose proof (Hle (id d)) as Hhi. rewrite decide_True in Hhi by done.
        unfold exact_int in *. lia. }
      split.
      * apply (obj_build_Forall (fun v => exists n : Z, v = VNum n 0 /\ exact_int n));
          [|constructor].
        apply (obj_set_Forall (fun v => exists n : Z, v = VNum n 0 /\ exact_int n));
          [|exact He].
        eexists. split; [reflexivity|]. by rewrite round_int_exact.
      * intros i. rewrite (stored_count_openSetup st o Hget d i).
        destruct (decide (id d = i)) as [<-|Hne].
        -- rewrite round_int_exact by done. lia.
        -- lia.
    + cbn [this].
      by destruct (reflect_count_fields (id d) (next_count o (id d))
                     (select (Some d) (this st))) as (_ & -> & _).
    + intros Hshow Hnd _. cbn [this]. split.
      * by apply shows_counts_openSetup.
      * by destruct (reflect_count_fields (id d) (next_count o (id d))
                       (select (Some d) (this st))) as (_ & _ & _ & _ & ->).
  - split; [done|]. exists o.
    split; [by rewrite <- Hget; apply getDebateCounts_fst_lookup|].
    split; [done|]. split; [by intros He _; apply Hsame|]. split; [done|].
    intros Hshow Hnd _. by split.
  - destruct (startDebate_cases st) as [E|(sel & _ & _ & _ & E)]; rewrite E;
      cbn [fst snd].
    + split; [done|]. exists o.
      split; [done|]. split; [done|]. split; [by intros He _; apply Hsame|].
      split; [done|].
      intros Hshow Hnd _. by split.
    + split; [done|]. exists o. split.
      * rewrite <- Hget. apply getDebateCounts_fst_lookup. cbn [localStorage].
        by rewrite !lookup_insert_ne.
      * split; [done|]. split; [by intros He _; apply Hsame|]. split; [done|].
        intros Hshow Hnd _. by split.
Qed.

End OneCall.

(** Any number of calls. *)
Lemma calls_counter_map (l : list Call) :
  forall (st : State) (o : list (str * value)),
    fst (getDebateCounts st) = Return (VObj o) -> counter_map o ->
    let st' := snd (calls l st) in
    fst (calls l st) = Return tt
    /\ exists o',
         fst (getDebateCounts st') = Return (VObj o') /\ counter_map o'
         /\ (exact_counter_map o ->
             (forall i, (stored_count o i + opens i l <= 2 ^ 53)%Z) ->
             exact_counter_map o'
             /\ forall i, stored_count o' i = (stored_count o i + opens i l)%Z)
         /\ selectedDebate (this st') = selection_after l (selectedDebate (this st))
         /\ (shows_counts o (this st) -> NoDup (listed_ids (this st)) ->
             Forall distinct_fetch l ->
             shows_counts o' (this st') /\ NoDup (listed_ids (this st'))).
Proof.
  induction l as [|c l IH]; intros st o Hget Ho.
  - cbn. split; [done|]. exists o. split; [done|]. split; [done|].
    split; [intros He _; split; [done|intros; lia]|].
    split; [done|]. intros Hshow Hnd _. by split.
  - destruct (call_counter_map st o Hget Ho c)
      as (Hret & o1 & Hget1 & Ho1 & Hcount1 & Hsel1 & Hshow1).
    destruct (IH (snd (call c st)) o1 Hget1 Ho1)
      as (Hret' & o' & Hget' & Ho' & Hcount' & Hsel' & Hshow').
    assert (Hrun : calls (c :: l) st = calls l (snd (call c st))).
    { cbn [calls]. unfold bind. destruct (call c st) as [[[]|e] s]; [done|].
      by simpl in Hret. }
    cbn zeta. rewrite Hrun. split; [done|]. exists o'.
    split; [done|]. split; [done|]. split; [|split].
    + intros He Hle.
      destruct Hcount1 as (He1 & Hc1); [done|..].
      { intros i. pose proof (Hle i) as Hi. rewrite (opens_cons i c l) in Hi.
        pose proof (opens_nonneg i l). lia. }
      destruct Hcount' as (He' & Hc'); [done|..].
      { intros i. pose proof (Hle i) as Hi. rewrite (opens_cons i c l) in Hi.
        rewrite Hc1. lia. }
      split; [done|].
      intros i. rewrite Hc', Hc1, (opens_cons i c l). lia.
    + by rewrite Hsel', Hsel1, (selection_after_cons c l).
    + intros Hshow Hnd Hl. inversion Hl as [|?? Hc Hl']; subst.
      destruct (Hshow1 Hshow Hnd Hc) as (Hs & Hn). by apply Hshow'.
Qed.

(** X10: the counters count the openings.  From a state whose stored
    counters are a counter map of integers up to [2^53] in magnitude (or
    absent), any sequence of calls of the component in which no counter
    would pass [2^53] runs to its end without an exception, the stored
    counters are such a counter map again, and the counter of every
    debate has grown by the number of [openSetup] calls for its id: no
    other call changes a counter, and none is lost. *)
Theorem calls_count_openings (l : list Call) (st : State)
  (o : list (str * value)) :
  fst (getDebateCounts st) = Return (VObj o) -> exact_counter_map o ->
  (forall i, (stored_count o i + opens i l <= 2 ^ 53)%Z) ->
  let st' := snd (calls l st) in
  fst (calls l st) = Return tt
  /\ exists o',
       fst (getDebateCounts st') = Return (VObj o') /\ exact_counter_map o'
       /\ forall i, stored_count o' i = (stored_count o i + opens i l)%Z.
Proof.
  intros Hget He Hle.
  destruct (calls_counter_map l st o Hget (exact_counter_map_counter_map o He))
    as (Hret & o' & Hget' & _ & Hcount & _).
  destruct (Hcount He Hle) as (He' & Hc).
  split; [done|]. by exists o'.
Qed.

Lemma calls_count_openings_witness :
  let cats := mkDebate 3 (lit "Cats") in
  let dogs := mkDebate 4 (lit "Dogs") in
  let text := 123 :: 34 :: lit "3" ++ 34 :: 58 :: lit "40" ++ [125] in
  let st := {| this := new_component;
               localStorage := {[ lit "debateCounts" := text ]};
               trace := [] |} in
  let l := [CallNgOnInit [cats; dogs]; CallOpenSetup cats; CallStartDebate;
            CallCloseSetup; CallOpenSetup dogs; CallSetViewMode mode_list;
            CallOpenSetup cats] in
  fst (calls l st) = Return tt
  /\ (exists o',
        fst (getDebateCounts (snd (calls l st))) = Return (VObj o')
        /\ stored_count o' 3 = 42%Z /\ stored_count o' 4 = 1%Z)
  /\ fst (read_counter 3 (snd (calls l st))) = Return (VNum 42 0)
  /\ fst (read_counter 4 (snd (calls l st))) = Return (VNum 1 0).
Proof.
  intros cats dogs text st l.
  assert (Hget : fst (getDebateCounts st) = Return (VObj [(lit "3", VNum 40 0)]))
    by reflexivity.
  assert (He : exact_counter_map [(lit "3", VNum 40 0)]).
  { repeat constructor. exists 40%Z. split; [reflexivity|]. unfold exact_int. lia. }
  assert (Hle : forall i,
            (stored_count [(lit "3", VNum 40 0)] i + opens i l <= 2 ^ 53)%Z).
  { intros i. unfold stored_count. cbn [obj_get]. unfold l. cbn [opens id cats dogs].
    destruct (str_eqb (lit "3") (Z_to_str i));
      repeat destruct (decide _); lia. }
  destruct (calls_count_openings l st _ Hget He Hle)
    as (Hret & o' & Hget' & _ & Hc).
  split; [exact Hret|]. split; [|split; reflexivity].
  exists o'. split; [exact Hget'|].
  split; [exact (Hc 3%Z)|exact (Hc 4%Z)].
Defined.

(** X11: the setup dialog.  From a state whose stored counters are a
    counter map, after any sequence of calls the selected debate is the
    one of the last [openSetup], unless a [closeSetup] came after it;
    [startDebate], the subscriber and [setViewMode] leave the selection
    as it is (a started debate stays selected). *)
Theorem calls_selection (l : list Call) (st : State) (o : list (str * value)) :
  fst (getDebateCounts st) = Return (VObj o) -> counter_map o ->
  selectedDebate (this (snd (calls l st)))
  = selection_after l (selectedDebate (this st)).
Proof.
  intros Hget Ho.
  by destruct (calls_counter_map l st o Hget Ho)
    as (_ & o' & _ & _ & _ & Hsel & _).
Qed.

Lemma calls_selection_witness :
  let cats := mkDebate 3 (lit "Cats") in
  let st := {| this := new_component; localStorage := ∅; trace := [] |} in
  selectedDebate
    (this (snd (calls [CallOpenSetup cats; CallStartDebate; CallNgOnInit []] st)))
  = Some cats.
Proof.
  intros cats st.
  assert (Hget : fst (getDebateCounts st) = Return (VObj [])) by reflexivity.
  assert (Ho : counter_map []) by constructor.
  exact (calls_selection [CallOpenSetup cats; CallStartDebate; CallNgOnInit []]
           st [] Hget Ho).
Defined.

(** X12: the list shows what is stored.  When every fetch delivers
    debates with distinct ids, the property that each listed debate shows
    the counter stored for its id is kept by every call of the component:
    the subscriber establishes it, [openSetup] keeps the one entry in step
    with the counter it writes, and no other call touches either side. *)
Theorem calls_keep_list_in_step (l : list Call) (st : State)
  (o : list (str * value)) :
  fst (getDebateCounts st) = Return (VObj o) -> counter_map o ->
  shows_counts o (this st) -> NoDup (listed_ids (this st)) ->
  Forall distinct_fetch l ->
  let st' := snd (calls l st) in
  exists o',
    fst (getDebateCounts st') = Return (VObj o') /\ counter_map o'
    /\ shows_counts o' (this st') /\ NoDup (listed_ids (this st')).
Proof.
  intros Hget Ho Hshow Hnd Hl.
  destruct (calls_counter_map l st o Hget Ho)
    as (_ & o' & Hget' & Ho' & _ & _ & Hkeep).
  exists o'. split; [done|]. split; [done|]. by apply Hkeep.
Qed.

Lemma calls_keep_list_in_step_witness :
  let cats := mkDebate 3 (lit "Cats") in
  let dogs := mkDebate 4 (lit "Dogs") in
  let st := {| this := new_component; localStorage := ∅; trace := [] |} in
  let l := [CallNgOnInit [cats; dogs]; CallOpenSetup cats; CallOpenSetup dogs;
            CallOpenSetup cats; CallStartDebate] in
  debates (this (snd (calls l st)))
  = [ {| base := cats; selectionCount := VNum 2 0 |};
      {| base := dogs; selectionCount := VNum 1 0 |} ]
  /\ exists o',
       fst (getDebateCounts (snd (calls l st))) = Return (VObj o')
       /\ shows_counts o' (this (snd (calls l st))).
Proof.
  intros cats dogs st l.
  assert (Hget : fst (getDebateCounts st) = Return (VObj [])) by reflexivity.
  assert (Ho : counter_map []) by constructor.
  assert (Hshow : shows_counts [] (this st)) by constructor.
  assert (Hnd : NoDup (listed_ids (this st))) by constructor.
  assert (Hl : Forall distinct_fetch l).
  { repeat constructor; simpl; try done.
    - rewrite not_elem_of_cons. split; [lia|apply not_elem_of_nil].
    - apply not_elem_of_nil. }
  split; [reflexivity|].
  destruct (calls_keep_list_in_step l st [] Hget Ho Hshow Hnd Hl)
    as (o' & Hget' & _ & Hshow' & _).
  exists o'. split; [exact Hget'|exact Hshow'].
Defined.

(** ** Stored JSON that is not a counter map *)

Lemma getDebateCounts_parsed (st : State) (text : str) (v : value) :
  localStorage st !! lit "debateCounts" = Some text ->
  JSON_parse text = Return v ->
  getDebateCounts st = (Return v, st).
Proof.
  intros Hls Hparse.
  assert (Hne : text <> []) by (intros ->; discriminate).
  by rewrite (getDebateCounts_text st text Hls Hne), Hparse.
Qed.

(** X13: when the text under ['debateCounts'] is the JSON [null], reading
    a counter raises a TypeError: [openSetup(d)] raises it for every [d],
    after selecting [d] and before writing anything, and the subscriber
    raises it for every list that is not empty, leaving the state as it
    was; an empty list is delivered without error. *)
Theorem stored_null_raises (st : State) (text : str) :
  localStorage st !! lit "debateCounts" = Some text ->
  JSON_parse text = Return VNull ->
  (forall d,
     openSetup d st
     = (Throw TypeError,
        {| this := select (Some d) (this st);
           localStorage := localStorage st; trace := trace st |}))
  /\ (forall d data, ngOnInit (d :: data) st = (Throw TypeError, st))
  /\ ngOnInit [] st
     = (Return tt, {| this := with_debates [] (this st);
                      localStorage := localStorage st; trace := trace st |}).
Proof.
  intros Hls Hparse. split; [|split].
  - intros d.
    unfold openSetup, bind, get_this, set_this, incrementDebateCount, bind.
    set (st0 := {| this := _; localStorage := localStorage st; trace := trace st |}).
    by rewrite (getDebateCounts_parsed st0 text VNull Hls Hparse).
  - intros d data. unfold ngOnInit, bind.
    by rewrite (getDebateCounts_parsed st text VNull Hls Hparse).
  - unfold ngOnInit, bind.
    by rewrite (getDebateCounts_parsed st text VNull Hls Hparse).
Qed.

Lemma stored_null_raises_witness :
  let st := {| this := new_component;
               localStorage := {[ lit "debateCounts" := lit " null " ]};
               trace := [] |} in
  fst (openSetup (mkDebate 3 (lit "Cats")) st) = Throw TypeError
  /\ fst (ngOnInit [mkDebate 3 (lit "Cats")] st) = Throw TypeError.
Proof.
  intros st.
  assert (Hls : localStorage st !! lit "debateCounts" = Some (lit " null "))
    by reflexivity.
  assert (Hparse : JSON_parse (lit " null ") = Return VNull) by reflexivity.
  destruct (stored_null_raises st (lit " null ") Hls Hparse) as (H1 & H2 & _).
  split; [by rewrite H1|by rewrite H2].
Defined.

Lemma enrich_no_properties (counts : value) (data : list Debate) :
  (forall debateId, get_prop counts debateId = Return VUndefined) ->
  enrich counts data
  = Return (map (fun d => {| base := d; selectionCount := VNum 0 0 |}) data).
Proof.
  intros H. induction data as [|d data IH]; [done|].
  cbn [enrich]. by rewrite H, IH.
Qed.

(** X14: when the text under ['debateCounts'] is a JSON number or [true]
    or [false], the subscriber takes it for a map without entries (every
    debate gets the count 0), but [openSetup(d)] raises a TypeError, the
    class being strict code: [d] is selected and nothing is written, so
    the stored text stays as it is. *)
Theorem stored_number_or_boolean (st : State) (text : str) (v : value) :
  localStorage st !! lit "debateCounts" = Some text ->
  JSON_parse text = Return v ->
  (exists m k, v = VNum m k) \/ (exists b, v = VBool b) ->
  (forall data,
     ngOnInit data st
     = (Return tt,
        {| this := with_debates
                     (map (fun d => {| base := d; selectionCount := VNum 0 0 |})
                          data) (this st);
           localStorage := localStorage st; trace := trace st |}))
  /\ (forall d,
        openSetup d st
        = (Throw TypeError,
           {| this := select (Some d) (this st);
              localStorage := localStorage st; trace := trace st |})).
Proof.
  intros Hls Hparse Hv.
  assert (Hget : forall debateId, get_prop v debateId = Return VUndefined).
  { intros debateId. by destruct Hv as [(m & k & ->)|(b & ->)]. }
  assert (Hset : forall debateId x, set_prop v debateId x = Throw TypeError).
  { intros debateId x. by destruct Hv as [(m & k & ->)|(b & ->)]. }
  split.
  - intros data. unfold ngOnInit, bind.
    rewrite (getDebateCounts_parsed st text v Hls Hparse). unfold lift.
    by rewrite (enrich_no_properties v data Hget).
  - intros d.
    unfold openSetup, bind, get_this, set_this, incrementDebateCount, bind.
    set (st0 := {| this := _; localStorage := localStorage st; trace := trace st |}).
    rewrite (getDebateCounts_parsed st0 text v Hls Hparse). unfold lift.
    rewrite Hget. cbn [js_or truthy js_add_int to_primitive obind to_number].
    by rewrite Hset.
Qed.

Lemma stored_number_or_boolean_witness :
  let st := {| this := new_component;
               localStorage := {[ lit "debateCounts" := lit "7" ]};
               trace := [] |} in
  let d := mkDebate 3 (lit "Cats") in
  debates (this (snd (ngOnInit [d] st)))
  = [ {| base := d; selectionCount := VNum 0 0 |} ]
  /\ fst (openSetup d st) = Throw TypeError
  /\ localStorage (snd (openSetup d st)) !! lit "debateCounts" = Some (lit "7").
Proof.
  intros st d.
  assert (Hls : localStorage st !! lit "debateCounts" = Some (lit "7"))
    by reflexivity.
  assert (Hparse : JSON_parse (lit "7") = Return (VNum 7 0)) by reflexivity.
  assert (Hv : (exists m k, VNum 7 0 = VNum m k) \/ (exists b, VNum 7 0 = VBool b))
    by (left; eauto).
  destruct (stored_number_or_boolean st (lit "7") (VNum 7 0) Hls Hparse Hv)
    as (H1 & H2).
  split; [by rewrite H1|]. split; by rewrite H2.
Defined.

(** What [incrementDebateCount] does on any stored object, given the new
    value that [(counts[id] || 0) + 1] comes to. *)
Lemma incrementDebateCount_object (debateId : Z) (st : State)
  (o : list (str * value)) (new : value) :
  fst (getDebateCounts st) = Return (VObj o) ->
  js_add_int (js_or (default VUndefined (obj_get (Z_to_str debateId) o))
                (VNum 0 0)) 1
  = Return new ->
  let text := serialize (VObj (obj_set (Z_to_str debateId) new o)) in
  incrementDebateCount debateId st
  = (Return tt,
     {| this := reflect_count debateId new (this st);
        localStorage := <[lit "debateCounts" := text]> (localStorage st);
        trace := trace st ++ [SetItem (lit "debateCounts") text] |}).
Proof.
  intros Hget Hnew text. apply getDebateCounts_eq in Hget.
  unfold incrementDebateCount, bind. rewrite Hget.
  unfold lift. cbn [get_prop]. rewrite Hnew.
  cbn [set_prop JSON_stringify is_undefined default localStorage_setItem
       get_this this].
  fold text. unfold reflect_count.
  destruct (list_find _ (debates (this st))) as [[i debate]|]; [|done].
  cbn [get_prop]. rewrite obj_get_set, decide_True by done. done.
Qed.

Lemma openSetup_object (d : Debate) (st : State) (o : list (str * value))
  (new : value) :
  fst (getDebateCounts st) = Return (VObj o) ->
  js_add_int (js_or (default VUndefined (obj_get (Z_to_str (id d)) o))
                (VNum 0 0)) 1
  = Return new ->
  let text := serialize (VObj (obj_set (Z_to_str (id d)) new o)) in
  openSetup d st
  = (Return tt,
     {| this := reflect_count (id d) new (select (Some d) (this st));
        localStorage := <[lit "debateCounts" := text]> (localStorage st);
        trace := trace st ++ [SetItem (lit "debateCounts") text] |}).
Proof.
  intros Hget Hnew text. unfold openSetup, bind, get_this, set_this.
  set (st0 := {| this := _; localStorage := localStorage st; trace := trace st |}).
  assert (Hget0 : fst (getDebateCounts st0) = Return (VObj o)).
  { rewrite <- Hget. by apply getDebateCounts_fst_lookup. }
  by rewrite (incrementDebateCount_object (id d) st0 o new Hget0 Hnew).
Qed.

(** X15: a stored count that is a string is not counted up but
    lengthened: when the stored object holds the non-empty string [s]
    for [d.id], [openSetup(d)] returns normally and stores the object with
    [s] followed by the character [1] in its place, and a listed debate
    shows that string. *)
Theorem openSetup_string_count (d : Debate) (st : State)
  (o : list (str * value)) (s : str) :
  fst (getDebateCounts st) = Return (VObj o) ->
  obj_get (Z_to_str (id d)) o = Some (VStr s) -> s <> [] ->
  let new := VStr (s ++ lit "1") in
  let text := serialize (VObj (obj_set (Z_to_str (id d)) new o)) in
  openSetup d st
  = (Return tt,
     {| this := reflect_count (id d) new (select (Some d) (this st));
        localStorage := <[lit "debateCounts" := text]> (localStorage st);
        trace := trace st ++ [SetItem (lit "debateCounts") text] |}).
Proof.
  intros Hget Hs Hne new text.
  apply (openSetup_object d st o new Hget).
  rewrite Hs. cbn [default]. unfold js_or. cbn [truthy].
  by destruct s.
Qed.

Lemma openSetup_string_count_witness :
  let d := mkDebate 3 (lit "Cats") in
  let o := [(lit "3", VStr (lit "2"))] in
  let st := {| this := new_component;
               localStorage := {[ lit "debateCounts" := serialize (VObj o) ]};
               trace := [] |} in
  localStorage (snd (openSetup d st)) !! lit "debateCounts"
  = Some (serialize (VObj [(lit "3", VStr (lit "21"))])).
Proof.
  intros d o st.
  assert (Hget : fst (getDebateCounts st) = Return (VObj o)) by reflexivity.
  assert (Hs : obj_get (Z_to_str (id d)) o = Some (VStr (lit "2"))) by reflexivity.
  assert (Hne : lit "2" <> []) by discriminate.
  by rewrite (openSetup_string_count d st o (lit "2") Hget Hs Hne).
Defined.

(** ** The text that is stored first *)

Lemma quote_units_plain (s : str) :
  Forall (fun c => c = 45 \/ 48 <= c <= 57) s -> quote_units s = s.
Proof.
  induction 1 as [|c s Hc Hs IH]; [done|]. cbn [quote_units].
  assert (Hlead : is_lead_surrogate c = false).
  { unfold is_lead_surrogate. apply andb_false_iff. left. apply N.leb_gt. lia. }
  assert (Htrail : is_trail_surrogate c = false).
  { unfold is_trail_surrogate. apply andb_false_iff. left. apply N.leb_gt. lia. }
  rewrite Hlead, Htrail, IH. unfold quote_unit.
  repeat match goal with
         | |- context [N.eqb c ?k] => destruct (N.eqb_spec c k); [lia|]
         end.
  destruct (N.ltb_spec c 32); [lia|done].
Qed.

Lemma obj_set_empty (k : str) (v : value) : obj_set k v [] = [(k, v)].
Proof. unfold obj_set. simpl. by destruct (array_index k). Qed.

(** X16: the first text.  With no ['debateCounts'] key (or the empty
    string under it), [openSetup(d)] stores, for every [d] whose id is an
    integer up to [2^53] in magnitude, the JSON object with the one
    member: the decimal text of [d.id], in quotes, a colon and the digit
    [1], without white space. *)
Theorem openSetup_first_text (d : Debate) (st : State) :
  exact_int (id d) ->
  localStorage st !! lit "debateCounts" = None
  \/ localStorage st !! lit "debateCounts" = Some [] ->
  localStorage (snd (openSetup d st)) !! lit "debateCounts"
  = Some (lit "{" ++ [34] ++ Z_to_str (id d) ++ [34] ++ lit ":1}").
Proof.
  intros _ Habs.
  assert (Hget : fst (getDebateCounts st) = Return (VObj []))
    by by rewrite (getDebateCounts_absent st Habs).
  rewrite (openSetup_object d st [] (VNum 1 0) Hget eq_refl).
  cbn [snd localStorage]. rewrite lookup_insert_eq, obj_set_empty.
  cbn [serialize is_undefined array_join]. unfold quote.
  rewrite (quote_units_plain _ (Z_to_str_chars (id d))).
  f_equal. change (number_to_str 1 0) with (lit "1").
  cbn [app]. by rewrite <- !app_assoc.
Qed.

Lemma openSetup_first_text_witness :
  let st := {| this := new_component; localStorage := ∅; trace := [] |} in
  localStorage (snd (openSetup (mkDebate (-12) (lit "Cats")) st))
    !! lit "debateCounts"
  = Some (lit "{" ++ [34] ++ lit "-12" ++ [34] ++ lit ":1}").
Proof.
  intros st.
  assert (Hid : exact_int (id (mkDebate (-12) (lit "Cats"))))
    by (vm_compute; split; discriminate).
  assert (Habs : localStorage st !! lit "debateCounts" = None
                 \/ localStorage st !! lit "debateCounts" = Some [])
    by (left; reflexivity).
  exact (openSetup_first_text (mkDebate (-12) (lit "Cats")) st Hid Habs).
Defined.
